(** * SumGame: the round engine of [src/App.tsx]

    A shallow embedding of the game logic of the React component [App]:
    the board, the selection, the target, the score and the two timers.
    The component's state variables become the fields of one record; every
    handler becomes a function on that record.  A handler that can raise a
    [TypeError] returns [option].  Calls of [Math.random] are numbered; the
    result of the i-th call is [random i], a binary64 number. *)

From Stdlib Require Import ZArith Bool Lia.
From Stdlib Require Import SpecFloat.
From stdpp Require Import base tactics option list strings.

Open Scope Z_scope.

(** ** Numbers

    JavaScript numbers are IEEE 754 binary64 values.  [Math.random] and the
    product it is multiplied into are modelled on [spec_float]; the integers
    the game computes with afterwards (values, sums, scores, seconds) are
    far below 2^53, where binary64 arithmetic is exact, and are modelled on
    [Z]. *)

Module Number.

Definition double : Type := spec_float.

Definition prec : Z := 53.
Definition emax : Z := 1024.

Definition valid (x : double) : bool := valid_binary prec emax x.

(** An integer literal. *)
Definition of_Z (n : Z) : double := binary_normalize prec emax n 0 false.

(** [x * y]. *)
Definition mul (x y : double) : double := SFmul prec emax x y.

(** [Math.floor x] for a finite [x]: the sign-magnitude mantissa shifted
    by the exponent, [Z.shiftl] with a negative amount being the floor of
    the division.  No call site of the game reaches a NaN or an infinity
    (see [NumberFacts.mul_unit_finite]); the function returns 0 there. *)
Definition floor (x : double) : Z :=
  match x with
  | S754_finite s m e => Z.shiftl (cond_Zopp s (Zpos m)) e
  | _ => 0
  end.

Definition is_finite (x : double) : bool :=
  match x with
  | S754_zero _ | S754_finite _ _ _ => true
  | _ => false
  end.

(** The range of [Math.random]: a binary64 number, greater than or equal
    to zero and less than one. *)
Definition unit_interval (x : double) : bool :=
  valid x && SFleb (S754_zero false) x && SFltb x (of_Z 1).

(** What [k] right shifts of the mantissa [M] leave in a rounding
    record: the quotient, and the round bit when the remainder reaches
    half a unit. *)
Definition shifted (M k : Z) (mrs : shr_record) : Prop :=
  0 <= shr_m mrs /\ shr_m mrs * 2 ^ k <= M /\
  (shr_r mrs = true -> (2 * shr_m mrs + 1) * 2 ^ k <= 2 * M).

End Number.

(** ** Constants *)

Definition GRID_COLS : nat := 6.
Definition GRID_ROWS : nat := 10.
Definition INITIAL_ROWS : nat := 4.
Definition TARGET_MIN : Z := 10.
Definition TARGET_MAX : Z := 30.
Definition TIME_MODE_SECONDS : Z := 10.

(** ** Data *)

Inductive GameMode := classic | time.
Inductive GameState := menu | playing | gameover.

#[global] Instance GameMode_eq_dec : EqDecision GameMode.
Proof. solve_decision. Defined.
#[global] Instance GameState_eq_dec : EqDecision GameState.
Proof. solve_decision. Defined.

Record BlockData := mkBlock {
  id : string;
  value : Z;
  isNew : bool
}.

(** An element of [selected]: [{ r, c }]. *)
Module Sel.
Record t := mk { r : nat; c : nat }.

#[global] Instance eq_dec : EqDecision t.
Proof. solve_decision. Defined.

(** [s.r === ri && s.c === ci] *)
Definition at_ (ri ci : nat) (s : t) : bool :=
  Nat.eqb (r s) ri && Nat.eqb (c s) ci.
End Sel.

(** A cell is [null] ([None]) or a block. *)
Abbreviation Cell := (option BlockData).
Abbreviation Row := (list Cell).
Abbreviation Grid := (list Row).

Record State := mkState {
  gameState : GameState;
  mode : GameMode;
  grid : Grid;
  target : Z;
  selected : list Sel.t;
  score : Z;
  timeLeft : Z;
  highScore : Z;
  (** number of calls of [Math.random] made so far *)
  rng : nat;
  (** callbacks [() => addRow()] handed to [setTimeout] and not yet run *)
  timeouts : nat
}.

(** The state of the first render: the [useState] initial values. *)
Definition initialState : State :=
  {| gameState := menu; mode := classic; grid := []; target := 0;
     selected := []; score := 0; timeLeft := TIME_MODE_SECONDS;
     highScore := 0; rng := 0; timeouts := 0 |}.

Definition set_gameState (g : GameState) (s : State) : State :=
  mkState g (mode s) (grid s) (target s) (selected s) (score s)
          (timeLeft s) (highScore s) (rng s) (timeouts s).
Definition set_mode (m : GameMode) (s : State) : State :=
  mkState (gameState s) m (grid s) (target s) (selected s) (score s)
          (timeLeft s) (highScore s) (rng s) (timeouts s).
Definition set_grid (g : Grid) (s : State) : State :=
  mkState (gameState s) (mode s) g (target s) (selected s) (score s)
          (timeLeft s) (highScore s) (rng s) (timeouts s).
Definition set_target (t : Z) (s : State) : State :=
  mkState (gameState s) (mode s) (grid s) t (selected s) (score s)
          (timeLeft s) (highScore s) (rng s) (timeouts s).
Definition set_selected (l : list Sel.t) (s : State) : State :=
  mkState (gameState s) (mode s) (grid s) (target s) l (score s)
          (timeLeft s) (highScore s) (rng s) (timeouts s).
Definition set_score (n : Z) (s : State) : State :=
  mkState (gameState s) (mode s) (grid s) (target s) (selected s) n
          (timeLeft s) (highScore s) (rng s) (timeouts s).
Definition set_timeLeft (n : Z) (s : State) : State :=
  mkState (gameState s) (mode s) (grid s) (target s) (selected s) (score s)
          n (highScore s) (rng s) (timeouts s).
Definition set_highScore (n : Z) (s : State) : State :=
  mkState (gameState s) (mode s) (grid s) (target s) (selected s) (score s)
          (timeLeft s) n (rng s) (timeouts s).
Definition set_rng (n : nat) (s : State) : State :=
  mkState (gameState s) (mode s) (grid s) (target s) (selected s) (score s)
          (timeLeft s) (highScore s) n (timeouts s).
Definition set_timeouts (n : nat) (s : State) : State :=
  mkState (gameState s) (mode s) (grid s) (target s) (selected s) (score s)
          (timeLeft s) (highScore s) (rng s) n.

(** ** Reading the grid *)

(** [grid[r][c]]: indexing a missing row raises a [TypeError] (outer
    [None]); a missing column yields [undefined], which every use in the
    component treats like [null] (inner [None]). *)
Definition cellAt (g : Grid) (r c : nat) : option Cell :=
  row ← g !! r; Some (default None (row !! c)).

(** [grid[s.r][s.c]?.value || 0] *)
Definition valueOr0 (cell : Cell) : Z :=
  match cell with
  | Some b => if value b =? 0 then 0 else value b
  | None => 0
  end.

(** [sel.reduce((sum, s) => sum + (grid[s.r][s.c]?.value || 0), 0)] *)
Definition sumSelected (g : Grid) (sel : list Sel.t) : option Z :=
  foldl (fun acc s =>
           sum ← acc; cell ← cellAt g (Sel.r s) (Sel.c s);
           Some (sum + valueOr0 cell))
        (Some 0) sel.

(** [currentGrid[0].some(cell => cell !== null)] *)
Definition checkGameOver (currentGrid : Grid) : option bool :=
  row ← currentGrid !! 0%nat; Some (existsb (fun cell => bool_decide (cell ≠ None)) row).

Section Game.

(** [random i] is what the i-th call of [Math.random] returns;
    [toString36 x] is [x.toString(36).substr(2, 9)]. *)
Variable random : nat -> Number.double.
Variable toString36 : Number.double -> string.

(** [Math.floor(Math.random() * (TARGET_MAX - TARGET_MIN + 1)) + TARGET_MIN],
    with the number of calls of [Math.random] passed along. *)
Definition generateTarget (n : nat) : Z * nat :=
  (Number.floor (Number.mul (random n) (Number.of_Z (TARGET_MAX - TARGET_MIN + 1)))
     + TARGET_MIN,
   S n).

(** One block of [generateRow]: the id is drawn before the value. *)
Definition generateBlock (n : nat) : BlockData * nat :=
  ({| id := toString36 (random n);
      value := Number.floor (Number.mul (random (S n)) (Number.of_Z 9)) + 1;
      isNew := true |},
   S (S n)).

(** The loop [for (let c = 0; c < GRID_COLS; c++) row.push(...)], with
    [k] iterations left. *)
Fixpoint generateRow_loop (k : nat) (row : Row) (n : nat) : Row * nat :=
  match k with
  | O => (row, n)
  | S k' =>
      let '(b, n') := generateBlock n in
      generateRow_loop k' (row ++ [Some b]) n'
  end.

Definition generateRow (n : nat) : Row * nat :=
  generateRow_loop GRID_COLS [] n.

(** *** startGame *)

(** [Array.from({ length: GRID_ROWS }, () => Array.from({ length: GRID_COLS }, () => null))] *)
Definition emptyGrid : Grid := replicate GRID_ROWS (replicate GRID_COLS None).

(** The loop [for (let r = GRID_ROWS - INITIAL_ROWS; r < GRID_ROWS; r++)
    initialGrid[r] = generateRow()], with [k] iterations left. *)
Fixpoint fillRows_loop (k r : nat) (g : Grid) (n : nat) : Grid * nat :=
  match k with
  | O => (g, n)
  | S k' =>
      let '(row, n') := generateRow n in
      fillRows_loop k' (S r) (<[r := row]> g) n'
  end.

Definition startGame (selectedMode : GameMode) (s : State) : State :=
  let '(initialGrid, n1) :=
    fillRows_loop INITIAL_ROWS (GRID_ROWS - INITIAL_ROWS) emptyGrid (rng s) in
  let '(t, n2) := generateTarget n1 in
  {| gameState := playing; mode := selectedMode; grid := initialGrid;
     target := t; selected := []; score := 0;
     timeLeft := TIME_MODE_SECONDS; highScore := highScore s;
     rng := n2; timeouts := timeouts s |}.

(** *** addRow

    [m] is the [mode] the callback closed over: [addRow] is memoised on
    [mode], the interval is re-created whenever [addRow] changes, and a
    callback handed to [setTimeout] keeps the [addRow] of the render that
    scheduled it.  In the source the row is generated before the top row
    is examined, so a call of [Math.random] is spent on either path; the
    array [newGrid] built first is never used and is left out. *)
Definition addRow (m : GameMode) (s : State) : option State :=
  let prev := grid s in
  let '(row, n') := generateRow (rng s) in
  let shiftedGrid := drop 1 prev ++ [row] in
  over ← checkGameOver prev;
  let s1 :=
    if over : bool
    then set_gameState gameover (set_rng n' s)
    else set_grid shiftedGrid (set_rng n' s) in
  Some (if decide (m = time) then set_timeLeft TIME_MODE_SECONDS s1 else s1).

(** *** handleBlockClick *)

(** [selected.some(s => s.r === r && s.c === c)] *)
Definition isSelected (sel : list Sel.t) (r c : nat) : bool :=
  existsb (Sel.at_ r c) sel.

(** The toggled selection [newSelected]. *)
Definition toggle (sel : list Sel.t) (r c : nat) : list Sel.t :=
  if isSelected sel r c
  then List.filter (fun s => negb (Sel.at_ r c s)) sel
  else sel ++ [Sel.mk r c].

(** [grid.map((row, ri) => row.map((cell, ci) =>
      newSelected.some(s => s.r === ri && s.c === ci) ? null : cell))] *)
Definition removeCells (g : Grid) (sel : list Sel.t) : Grid :=
  imap (fun ri row =>
          imap (fun ci cell => if isSelected sel ri ci then None else cell) row)
       g.

Definition handleBlockClick (r c : nat) (s : State) : option State :=
  if negb (bool_decide (gameState s = playing)) then Some s else
  block ← cellAt (grid s) r c;
  match block with
  | None => Some s
  | Some _ =>
      let newSelected := toggle (selected s) r c in
      currentSum ← sumSelected (grid s) newSelected;
      if currentSum =? target s then
        let points := Z.of_nat (length newSelected) * 10 in
        let nextGrid := removeCells (grid s) newSelected in
        let '(t, n') := generateTarget (rng s) in
        let s1 :=
          {| gameState := gameState s; mode := mode s; grid := nextGrid;
             target := t; selected := []; score := score s + points;
             timeLeft := timeLeft s; highScore := highScore s;
             rng := n'; timeouts := timeouts s |} in
        Some (if decide (mode s = classic)
              then set_timeouts (S (timeouts s)) s1
              else set_timeLeft TIME_MODE_SECONDS s1)
      else if currentSum >? target s then
        Some (set_selected [] s)
      else
        Some (set_selected newSelected s)
  end.

(** *** The timers and the effects *)

(** The interval callback:
    [setTimeLeft(prev => { if (prev <= 1) { addRow(); return TIME_MODE_SECONDS; }
                           return prev - 1; })].
    The interval exists only while [mode === 'time'], so its [addRow]
    closed over that mode. *)
Definition tick (s : State) : option State :=
  if timeLeft s <=? 1 then
    s' ← addRow time s; Some (set_timeLeft TIME_MODE_SECONDS s')
  else Some (set_timeLeft (timeLeft s - 1) s).

(** The callback of [setTimeout(() => { addRow(); }, 300)]: it was
    scheduled under [mode === 'classic']. *)
Definition fireTimeout (s : State) : option State :=
  addRow classic (set_timeouts (pred (timeouts s)) s).

(** [useEffect(() => { if (score > highScore) setHighScore(score); },
    [score, highScore])] *)
Definition highScoreEffect (s : State) : State :=
  if score s >? highScore s then set_highScore (score s) s else s.

(** *** Events

    What can happen to the mounted component: a button is pressed, the
    interval fires, a deferred callback fires. *)
Inductive Event :=
| StartGame (m : GameMode)
| BlockClick (r c : nat)
| ClearSelection
| MainMenu
| TimerTick
| TimeoutFires.

(** When an event can happen: a button exists only while its screen is
    rendered (the two mode buttons on the menu, "try again" with the
    current mode on the game-over screen, a block button for a block of
    the grid while playing, the clear buttons and the back arrow while
    playing, "main menu" on the game-over screen); the interval exists
    while playing in time mode; a deferred callback fires if one is
    pending. *)
Definition enabled (e : Event) (s : State) : bool :=
  match e with
  | StartGame m =>
      bool_decide (gameState s = menu)
      || (bool_decide (gameState s = gameover) && bool_decide (m = mode s))
  | BlockClick r c =>
      bool_decide (gameState s = playing)
      && match cellAt (grid s) r c with Some (Some _) => true | _ => false end
  | ClearSelection => bool_decide (gameState s = playing)
  | MainMenu => negb (bool_decide (gameState s = menu))
  | TimerTick =>
      bool_decide (gameState s = playing) && bool_decide (mode s = time)
  | TimeoutFires => negb (Nat.eqb (timeouts s) 0)
  end.

(** The handler of an event. *)
Definition handle (e : Event) (s : State) : option State :=
  match e with
  | StartGame m => Some (startGame m s)
  | BlockClick r c => handleBlockClick r c s
  | ClearSelection => Some (set_selected [] s)
  | MainMenu => Some (set_gameState menu s)
  | TimerTick => tick s
  | TimeoutFires => fireTimeout s
  end.

(** One event processed to completion: the handler runs, the component
    re-renders, the effect on [score] and [highScore] runs. *)
Definition step (e : Event) (s : State) : option State :=
  if enabled e s then highScoreEffect <$> handle e s else None.

Fixpoint run (es : list Event) (s : State) : option State :=
  match es with
  | [] => Some s
  | e :: es' => s' ← step e s; run es' s'
  end.

Inductive reachable : State -> Prop :=
| reachable_init : reachable initialState
| reachable_step e s s' :
    reachable s -> step e s = Some s' -> reachable s'.

End Game.

(** ** Notions the statements use *)

(** The cell at a position of the grid, if the grid has that position. *)
Definition cellOf (g : Grid) (ri ci : nat) : option Cell :=
  row ← g !! ri; row !! ci.

(** A selected coordinate refers to a block of the grid. *)
Definition occupied (g : Grid) (x : Sel.t) : Prop :=
  exists b, cellOf g (Sel.r x) (Sel.c x) = Some (Some b).

Definition selectionOccupied (s : State) : Prop :=
  Forall (occupied (grid s)) (selected s).

(** A round has been started: the grid has its rows. *)
Definition started (s : State) : Prop := length (grid s) = GRID_ROWS.

(** What every state the component can be in satisfies. *)
Definition invariant (s : State) : Prop :=
  NoDup (selected s) /\
  Forall (fun x => (Sel.r x < length (grid s))%nat) (selected s) /\
  1 <= timeLeft s <= TIME_MODE_SECONDS /\
  0 <= score s /\
  (started s \/ (gameState s = menu /\ timeouts s = 0%nat /\ grid s = [])).

(** The handler of the event calls [addRow]. *)
Definition advances (e : Event) (s : State) : bool :=
  match e with
  | TimerTick => timeLeft s <=? 1
  | TimeoutFires => true
  | _ => false
  end.

(** The states a sequence of events visits, the first one included. *)
Fixpoint states (random : nat -> Number.double)
    (toString36 : Number.double -> string)
    (es : list Event) (s : State) : list State :=
  s :: match es with
       | [] => []
       | e :: es' =>
           match step random toString36 e s with
           | Some s' => states random toString36 es' s'
           | None => []
           end
       end.

(** The greatest of a list of scores (0 for none). *)
Definition maxScore (l : list Z) : Z := foldr Z.max 0 l.

(** ** Sample runs *)

(** Two values in the range of [Math.random]: one half, and the greatest
    binary64 number below one. *)
Definition oneHalf : Number.double := S754_finite false 4503599627370496 (-53).
Definition belowOne : Number.double := S754_finite false 9007199254740991 (-53).

(** Sources that always draw the same number, and a rendering of ids. *)
Definition alwaysHalf (_ : nat) : Number.double := oneHalf.
Definition alwaysBelowOne (_ : nat) : Number.double := belowOne.
Definition noId (_ : Number.double) : string := EmptyString.

(** The block every cell of a generated row holds under [alwaysHalf]
    (value 5, target 20) and under [alwaysBelowOne] (value 9, target 30). *)
Definition five : BlockData := {| id := EmptyString; value := 5; isNew := true |}.
Definition nine : BlockData := {| id := EmptyString; value := 9; isNew := true |}.

(** The state a sequence of events leads to from the first render (the
    first render itself if an event of the sequence cannot happen). *)
Definition after (random : nat -> Number.double) (es : list Event) : State :=
  default initialState (run random noId es initialState).

(** A classic round in which the first three blocks of the bottom row are
    selected. *)
Definition threeSelected : list Event :=
  [StartGame classic; BlockClick 9 0; BlockClick 9 1; BlockClick 9 2].

(** A classic round in which the first four blocks of the bottom row have
    been matched (under [alwaysHalf]); the deferred [addRow] is pending. *)
Definition fourMatched : list Event :=
  threeSelected ++ [BlockClick 9 3].

(** A classic round in which the first four blocks of the bottom row have
    been matched and the deferred [addRow] has run, six times over (under
    [alwaysHalf]): the first row of the round has risen to row 0. *)
Definition matchBottom : list Event :=
  [BlockClick 9 0; BlockClick 9 1; BlockClick 9 2; BlockClick 9 3].
Definition risenToTop : list Event :=
  StartGame classic :: concat (replicate 6 (matchBottom ++ [TimeoutFires])).

(** The same round lost: a seventh match, and its deferred [addRow] finds
    a block in row 0. *)
Definition lostRound : list Event :=
  risenToTop ++ matchBottom ++ [TimeoutFires].

(** ** Notions of the further properties *)

(** A board of [GRID_ROWS] rows of [GRID_COLS] cells. *)
Definition wellShaped (g : Grid) : Prop :=
  length g = GRID_ROWS /\ Forall (fun row : Row => length row = GRID_COLS) g.

(** A row without blocks; a grid whose first [k] rows are such rows. *)
Definition emptyRow (row : Row) : Prop := Forall (fun cell => cell = None) row.
Definition topEmpty (k : nat) (g : Grid) : Prop := Forall emptyRow (take k g).

(** Every block of the grid has a value between 1 and 9. *)
Definition blocksInRange (g : Grid) : Prop :=
  forall ri ci b, cellOf g ri ci = Some (Some b) -> 1 <= value b <= 9.

(** The number of events of a sequence that are a tick of the interval or
    a deferred callback: the events whose handlers can call [addRow]. *)
Definition timerEvents (es : list Event) : nat :=
  length (List.filter (fun e => match e with
                                | TimerTick | TimeoutFires => true
                                | _ => false
                                end) es).

(** The value a selected coordinate adds to the sum. *)
Definition cellValue (g : Grid) (x : Sel.t) : Z :=
  valueOr0 (default None (cellOf g (Sel.r x) (Sel.c x))).

(** What else every state the component can be in satisfies: the board
    is missing (before the first round) or has its shape, the score is a
    multiple of 10 that the best score has caught up with, and on the
    game-over screen row 0 holds a block. *)
Definition boardInvariant (s : State) : Prop :=
  (grid s = [] \/ wellShaped (grid s)) /\
  (10 | score s) /\ score s <= highScore s /\
  (gameState s = gameover ->
   exists row0 rest b, grid s = row0 :: rest /\ Some b ∈ row0).

(** With [Math.random] in its range: the values of the blocks, and the
    target of a round. *)
Definition rangeInvariant (s : State) : Prop :=
  blocksInRange (grid s) /\
  (started s -> TARGET_MIN <= target s <= TARGET_MAX).

(** * Facts *)

(** ** Rounding of a product with a random number *)

Module NumberFacts.
Import Number.

Lemma digits2_pos_bounds (m : positive) :
  2 ^ (Zpos (digits2_pos m) - 1) <= Zpos m < 2 ^ Zpos (digits2_pos m).
Proof.
  induction m as [m IH|m IH|]; simpl digits2_pos.
  - rewrite Pos2Z.inj_succ.
    replace (Z.succ (Zpos (digits2_pos m)) - 1) with (Z.succ (Zpos (digits2_pos m) - 1)) by lia.
    rewrite !Z.pow_succ_r by lia. lia.
  - rewrite Pos2Z.inj_succ.
    replace (Z.succ (Zpos (digits2_pos m)) - 1) with (Z.succ (Zpos (digits2_pos m) - 1)) by lia.
    rewrite !Z.pow_succ_r by lia. lia.
  - simpl. lia.
Qed.

Lemma digits2_pos_le (m : positive) (k : Z) :
  Zpos m < 2 ^ k -> Zpos (digits2_pos m) <= k.
Proof.
  intros Hlt. destruct (digits2_pos_bounds m) as [Hlo _].
  destruct (Z_le_gt_dec (Zpos (digits2_pos m)) k) as [|Hgt]; [done|].
  assert (2 ^ k <= 2 ^ (Zpos (digits2_pos m) - 1)); [|lia].
  destruct (Z_le_gt_dec 0 k).
  - apply Z.pow_le_mono_r; lia.
  - rewrite (Z.pow_neg_r 2 k) by lia. apply Z.pow_nonneg. lia.
Qed.

Lemma iter_pos_inv {A} (f : A -> A) (I : Z -> A -> Prop) :
  (forall k x, 0 <= k -> I k x -> I (k + 1) (f x)) ->
  forall p k x, 0 <= k -> I k x -> I (k + Zpos p) (SpecFloat.iter_pos f p x).
Proof.
  intros Hf. induction p as [p IH|p IH|]; intros k x Hk HI; simpl.
  - replace (k + Zpos p~1) with (k + 1 + Zpos p + Zpos p) by lia.
    apply IH; [lia|]. apply IH; [lia|]. by apply Hf.
  - replace (k + Zpos p~0) with (k + Zpos p + Zpos p) by lia.
    apply IH; [lia|]. by apply IH.
  - by apply Hf.
Qed.

Lemma shr_1_shifted M k mrs :
  0 <= k -> shifted M k mrs -> shifted M (k + 1) (shr_1 mrs).
Proof.
  intros Hk (H0 & Hle & Hr). destruct mrs as [m r s]; simpl in *.
  assert (2 ^ (k + 1) = 2 * 2 ^ k) as Hp
    by (rewrite Z.pow_add_r, Z.pow_1_r by lia; lia).
  assert (0 < 2 ^ k) by (apply Z.pow_pos_nonneg; lia).
  destruct m as [|[p|p|]|p]; unfold shifted; simpl; rewrite Hp; lia.
Qed.

Lemma shr_shifted M e n :
  0 <= M ->
  let '(mrs, e') := shr (Build_shr_record M false false) e n in
  shifted M (Z.max 0 n) mrs /\ e' = e + Z.max 0 n.
Proof.
  intros HM.
  assert (shifted M 0 (Build_shr_record M false false)) as H0.
  { unfold shifted; simpl. split; [lia|]. split; [lia|done]. }
  destruct n as [|p|p]; simpl.
  - split; [done|lia].
  - split; [|lia].
    apply (iter_pos_inv shr_1 (shifted M) (shr_1_shifted M) p 0); [lia|done].
  - split; [done|lia].
Qed.

Lemma round_nearest_even_shifted M k mrs :
  0 <= k -> shifted M k mrs ->
  0 <= round_nearest_even (shr_m mrs) (loc_of_shr_record mrs) /\
  2 * round_nearest_even (shr_m mrs) (loc_of_shr_record mrs) * 2 ^ k
    <= 2 * M + 2 ^ k.
Proof.
  intros Hk (H0 & Hle & Hr). destruct mrs as [m r s]; simpl in *.
  assert (0 < 2 ^ k) by (apply Z.pow_pos_nonneg; lia).
  assert (forall a, 2 * a * 2 ^ k = 2 * (a * 2 ^ k)) as Ha by (intros; ring).
  assert ((m + 1) * 2 ^ k = m * 2 ^ k + 2 ^ k) as Hs by ring.
  assert ((2 * m + 1) * 2 ^ k = 2 * (m * 2 ^ k) + 2 ^ k) as Hd by ring.
  rewrite Ha. destruct r, s; simpl; [| |lia..].
  - specialize (Hr eq_refl). rewrite Hs. lia.
  - specialize (Hr eq_refl). destruct (Z.even m); rewrite ?Hs; lia.
Qed.

(** The floor of a rounded product stays below an integer bound [B] that
    the exact product misses by more than half a unit in the last place. *)
Lemma floor_round_aux_lt (P : positive) (E B : Z) :
  E <= 0 -> 0 < B ->
  2 * Zpos P + 2 ^ Z.max 0 (fexp prec emax (Zpos (digits2_pos P) + E) - E)
    < 2 * B * 2 ^ (- E) ->
  0 <= floor (binary_round_aux prec emax false (Zpos P) E loc_Exact) < B.
Proof.
  intros HE HB Hlt. unfold binary_round_aux, shr_fexp.
  simpl Zdigits2. simpl shr_record_of_loc.
  set (n := fexp prec emax (Zpos (digits2_pos P) + E) - E) in *.
  pose proof (shr_shifted (Zpos P) E n (Pos2Z.is_nonneg P)) as H1.
  destruct (shr _ E n) as [mrs' e']. destruct H1 as [H1 ->].
  pose proof (round_nearest_even_shifted _ _ _ (Z.le_max_l 0 n) H1) as [Hm0 Hm1].
  set (m1 := round_nearest_even (shr_m mrs') (loc_of_shr_record mrs')) in *.
  set (n2 := fexp prec emax (Zdigits2 m1 + (E + Z.max 0 n)) - (E + Z.max 0 n)).
  pose proof (shr_shifted m1 (E + Z.max 0 n) n2 Hm0) as H2.
  destruct (shr _ (E + Z.max 0 n) n2) as [mrs'' e'']. destruct H2 as [(H20 & H2 & _) ->].
  assert (0 < 2 ^ Z.max 0 n) by (apply Z.pow_pos_nonneg; lia).
  assert (0 < 2 ^ Z.max 0 n2) by (apply Z.pow_pos_nonneg; lia).
  assert (0 < 2 ^ (- E)) by (apply Z.pow_pos_nonneg; lia).
  set (K := Z.max 0 n + Z.max 0 n2).
  assert (0 < 2 ^ K) by (apply Z.pow_pos_nonneg; lia).
  assert (shr_m mrs'' * 2 ^ K < B * 2 ^ (- E)) as Hb.
  { unfold K. rewrite Z.pow_add_r by lia. nia. }
  destruct (shr_m mrs'') as [|m|m] eqn:Hm; simpl; [lia| |lia].
  destruct (_ <=? _); simpl; [|lia].
  replace (E + Z.max 0 n + Z.max 0 n2) with (E + K) by lia.
  destruct (Z_le_gt_dec 0 (E + K)).
  - rewrite Z.shiftl_mul_pow2 by lia.
    assert (0 < 2 ^ (E + K)) by (apply Z.pow_pos_nonneg; lia).
    split; [lia|].
    assert (2 ^ K = 2 ^ (E + K) * 2 ^ (- E)) as HK
      by (rewrite <- Z.pow_add_r by lia; f_equal; lia).
    rewrite HK, Z.mul_assoc in Hb.
    by apply Z.mul_lt_mono_pos_r in Hb.
  - rewrite Z.shiftl_div_pow2 by lia.
    assert (0 < 2 ^ (- (E + K))) by (apply Z.pow_pos_nonneg; lia).
    split; [apply Z.div_pos; lia|].
    apply Z.div_lt_upper_bound; [lia|].
    assert (2 ^ (- E) = 2 ^ (- (E + K)) * 2 ^ K) as HK
      by (rewrite <- Z.pow_add_r by lia; f_equal; lia).
    rewrite HK, Z.mul_assoc in Hb.
    apply Z.mul_lt_mono_pos_r in Hb; lia.
Qed.

Lemma of_Z_1 : of_Z 1 = S754_finite false 4503599627370496 (-52).
Proof. vm_compute. reflexivity. Qed.
Lemma of_Z_21 : of_Z 21 = S754_finite false 5910974510923776 (-48).
Proof. vm_compute. reflexivity. Qed.
Lemma of_Z_9 : of_Z 9 = S754_finite false 5066549580791808 (-49).
Proof. vm_compute. reflexivity. Qed.

Lemma compare_cont_Eq_lt (p q : positive) :
  Pos.compare_cont Eq p q = Lt -> Zpos p < Zpos q.
Proof. intros H. exact H. Qed.

Lemma pow2_52 : 2 ^ 52 = 4503599627370496.
Proof. vm_compute. reflexivity. Qed.
Lemma pow2_53 : 2 ^ 53 = 9007199254740992.
Proof. vm_compute. reflexivity. Qed.

(** A binary64 number in the range of [Math.random] is a zero or a
    positive number with at most 53 digits that is less than 1. *)
Lemma unit_interval_inv (x : double) :
  unit_interval x = true ->
  (exists s, x = S754_zero s) \/
  (exists m e, x = S754_finite false m e /\
     -1074 <= e <= -52 /\ Zpos m < 2 ^ 53 /\ Zpos m < 2 ^ (- e)).
Proof.
  unfold unit_interval, valid. rewrite of_Z_1. intros H.
  apply andb_prop in H as [H Hlt]. apply andb_prop in H as [Hv Hle].
  destruct x as [s|s| |s m e].
  - left. by eexists.
  - unfold SFltb, SFcompare in Hlt. by destruct s.
  - unfold SFleb, SFcompare in Hle. discriminate.
  - destruct s; [unfold SFleb, SFcompare in Hle; discriminate|].
    right. exists m, e. split; [done|].
    unfold valid_binary, bounded, canonical_mantissa in Hv.
    apply andb_prop in Hv as [Hc _]. apply Z.eqb_eq in Hc.
    unfold fexp, SpecFloat.emin, prec, emax in Hc.
    destruct (digits2_pos_bounds m) as [_ Hd].
    assert (Zpos (digits2_pos m) <= 53) as Hd53 by lia.
    assert (Zpos m < 2 ^ 53) as Hm53.
    { eapply Z.lt_le_trans; [exact Hd|]. apply Z.pow_le_mono_r; lia. }
    assert (e <= -52 /\ Zpos (digits2_pos m) + e <= 0) as [He Hde].
    { unfold SFltb, SFcompare in Hlt.
      destruct (e ?= -52) eqn:Hcmp; try discriminate.
      - apply Z.compare_eq in Hcmp. subst e.
        destruct (Pos.compare_cont Eq m 4503599627370496) eqn:Hp; try discriminate.
        apply compare_cont_Eq_lt in Hp.
        assert (Zpos m < 2 ^ 52) as Hm52 by (rewrite pow2_52; exact Hp).
        apply digits2_pos_le in Hm52. lia.
      - assert (e < -52) by exact Hcmp. lia. }
    split; [lia|]. split; [done|].
    eapply Z.lt_le_trans; [exact Hd|]. apply Z.pow_le_mono_r; lia.
Qed.

(** [Math.floor(Math.random() * c)] lies in [0, c) for an integer [c]
    whose binary64 mantissa [my] is not a power of two. *)
Lemma floor_mul_unit (x : double) (my : positive) (ey c : Z) :
  unit_interval x = true ->
  -53 <= ey <= 0 -> Zpos my = c * 2 ^ (- ey) -> 2 ^ 52 < Zpos my < 2 ^ 53 ->
  0 <= floor (mul x (S754_finite false my ey)) < c.
Proof.
  intros Hx Hey Hc Hmy.
  assert (0 < 2 ^ (- ey)) as Hpy by (apply Z.pow_pos_nonneg; lia).
  assert (0 < c) as Hc0.
  { destruct (Z_lt_le_dec 0 c) as [|Hneg]; [done|].
    assert (c * 2 ^ (- ey) <= 0) by (apply Z.mul_nonpos_nonneg; lia). lia. }
  destruct (unit_interval_inv x Hx) as [[s ->]|(m & e & -> & He & Hm53 & Hm)].
  { simpl. lia. }
  unfold mul, SFmul. simpl xorb.
  apply floor_round_aux_lt; [lia|done|].
  assert (0 < 2 ^ (- e)) as Hpe by (apply Z.pow_pos_nonneg; lia).
  replace (- (e + ey)) with (- e + - ey) by lia.
  rewrite Z.pow_add_r by lia.
  set (n := fexp prec emax (Zpos (digits2_pos (m * my)) + (e + ey)) - (e + ey)).
  assert (2 ^ 53 = 2 * 2 ^ 52) as H53 by (rewrite pow2_52, pow2_53; reflexivity).
  assert (Z.max 0 n <= 53) as Hn.
  { assert (Zpos (digits2_pos (m * my)) <= 106).
    { apply digits2_pos_le. rewrite Pos2Z.inj_mul.
      replace 106 with (53 + 53) by reflexivity. rewrite Z.pow_add_r by lia.
      apply Z.mul_lt_mono_nonneg; lia. }
    unfold n, fexp, SpecFloat.emin, prec, emax. lia. }
  assert (2 ^ Z.max 0 n <= 2 ^ 53) as HN by (apply Z.pow_le_mono_r; lia).
  rewrite Pos2Z.inj_mul.
  assert (Zpos my * (Zpos m + 1) <= Zpos my * 2 ^ (- e)) as Hprod
    by (apply Z.mul_le_mono_nonneg_l; lia).
  replace (2 * c * (2 ^ (- e) * 2 ^ (- ey)))
    with (2 * (Zpos my * 2 ^ (- e))) by (rewrite Hc; ring).
  rewrite Z.mul_add_distr_l, Z.mul_1_r in Hprod.
  rewrite (Z.mul_comm (Zpos m) (Zpos my)). lia.
Qed.

Lemma floor_mul_target (x : double) :
  unit_interval x = true ->
  0 <= floor (mul x (of_Z (TARGET_MAX - TARGET_MIN + 1))) <= TARGET_MAX - TARGET_MIN.
Proof.
  intros Hx. change (TARGET_MAX - TARGET_MIN + 1) with 21.
  change (TARGET_MAX - TARGET_MIN) with 20. rewrite of_Z_21.
  assert (0 <= floor (mul x (S754_finite false 5910974510923776 (-48))) < 21);
    [|lia].
  apply floor_mul_unit; [done|lia|by vm_compute|].
  rewrite pow2_52, pow2_53. lia.
Qed.

Lemma floor_mul_value (x : double) :
  unit_interval x = true ->
  0 <= floor (mul x (of_Z 9)) <= 8.
Proof.
  intros Hx. rewrite of_Z_9.
  assert (0 <= floor (mul x (S754_finite false 5066549580791808 (-49))) < 9);
    [|lia].
  apply floor_mul_unit; [done|lia|by vm_compute|].
  rewrite pow2_52, pow2_53. lia.
Qed.

Lemma Zdigits2_le (m k : Z) : 0 <= m < 2 ^ k -> 0 <= k -> Zdigits2 m <= k.
Proof.
  intros [H0 Hk] Hk0. destruct m as [|p|p]; simpl; [done| |lia].
  by apply digits2_pos_le.
Qed.

(** Rounding a mantissa of at most 106 digits with a non-positive
    exponent never overflows. *)
Lemma round_aux_finite (P : positive) (E : Z) :
  E <= 0 -> Zpos P < 2 ^ 106 ->
  is_finite (binary_round_aux prec emax false (Zpos P) E loc_Exact) = true.
Proof.
  intros HE HP. unfold binary_round_aux, shr_fexp.
  simpl Zdigits2. simpl shr_record_of_loc.
  set (n := fexp prec emax (Zpos (digits2_pos P) + E) - E) in *.
  pose proof (shr_shifted (Zpos P) E n (Pos2Z.is_nonneg P)) as H1.
  destruct (shr _ E n) as [mrs' e']. destruct H1 as [H1 ->].
  pose proof (round_nearest_even_shifted _ _ _ (Z.le_max_l 0 n) H1) as [Hm0 Hm1].
  set (m1 := round_nearest_even (shr_m mrs') (loc_of_shr_record mrs')) in *.
  set (n2 := fexp prec emax (Zdigits2 m1 + (E + Z.max 0 n)) - (E + Z.max 0 n)).
  pose proof (shr_shifted m1 (E + Z.max 0 n) n2 Hm0) as H2.
  destruct (shr _ (E + Z.max 0 n) n2) as [mrs'' e'']. destruct H2 as [(H20 & _ & _) ->].
  destruct (shr_m mrs'') as [|m|m]; [done| |lia].
  assert (E + Z.max 0 n + Z.max 0 n2 <= emax - prec) as Hle; [|by apply Z.leb_le in Hle as ->].
  assert (Zpos (digits2_pos P) <= 106) as HD by (by apply digits2_pos_le).
  assert (0 < 2 ^ Z.max 0 n) as HN by (apply Z.pow_pos_nonneg; lia).
  assert (m1 <= Zpos P + 1) as Hm1P by nia.
  assert (Zdigits2 m1 <= 107) as HD1.
  { apply Zdigits2_le; [|lia]. split; [done|].
    replace 107 with (106 + 1) by reflexivity.
    rewrite Z.pow_add_r, Z.pow_1_r by lia. lia. }
  unfold n2, n, fexp, SpecFloat.emin, prec, emax in *. lia.
Qed.

(** The product of a random number and a positive binary64 integer of
    the game is a number, never an infinity or a NaN. *)
Lemma mul_unit_finite (x : double) (c : Z) :
  unit_interval x = true -> c = 21 \/ c = 9 ->
  is_finite (mul x (of_Z c)) = true.
Proof.
  intros Hx Hc.
  assert (exists my ey, of_Z c = S754_finite false my ey /\
            Zpos my < 2 ^ 53 /\ ey <= 0) as (my & ey & -> & Hmy & Hey).
  { destruct Hc as [-> | ->]; [rewrite of_Z_21|rewrite of_Z_9];
      do 2 eexists; (split; [reflexivity|]); rewrite pow2_53; lia. }
  destruct (unit_interval_inv x Hx) as [[s ->]|(m & e & -> & He & Hm53 & Hm)];
    [done|].
  unfold mul, SFmul. simpl xorb. apply round_aux_finite; [lia|].
  rewrite Pos2Z.inj_mul. replace 106 with (53 + 53) by reflexivity.
  rewrite Z.pow_add_r by lia. apply Z.mul_lt_mono_nonneg; lia.
Qed.
End NumberFacts.

(** ** The selection and the grid *)

Section SelectionFacts.

Lemma at_eq (r c : nat) (x : Sel.t) :
  Sel.at_ r c x = bool_decide (x = Sel.mk r c).
Proof.
  destruct x as [r' c']. unfold Sel.at_. simpl.
  case_bool_decide as H.
  - injection H as -> ->. by rewrite !Nat.eqb_refl.
  - destruct (Nat.eqb_spec r' r), (Nat.eqb_spec c' c); simpl; congruence.
Qed.

Lemma isSelected_elem (sel : list Sel.t) (r c : nat) :
  isSelected sel r c = true <-> Sel.mk r c ∈ sel.
Proof.
  unfold isSelected. rewrite existsb_exists. split.
  - intros (x & Hin & Hat). rewrite at_eq in Hat.
    apply bool_decide_eq_true in Hat as ->. by apply list_elem_of_In.
  - intros Hin. exists (Sel.mk r c). split; [by apply list_elem_of_In|].
    rewrite at_eq. by apply bool_decide_eq_true.
Qed.

Lemma isSelected_false (sel : list Sel.t) (r c : nat) :
  isSelected sel r c = false <-> Sel.mk r c ∉ sel.
Proof.
  rewrite <- isSelected_elem. by destruct (isSelected sel r c).
Qed.

Lemma elem_of_removed (sel : list Sel.t) (r c : nat) (x : Sel.t) :
  x ∈ List.filter (fun s => negb (Sel.at_ r c s)) sel <->
  x ∈ sel /\ x <> Sel.mk r c.
Proof.
  rewrite !list_elem_of_In, filter_In, at_eq, negb_true_iff,
    bool_decide_eq_false. done.
Qed.

Lemma toggle_notin (sel : list Sel.t) (r c : nat) :
  Sel.mk r c ∉ sel -> toggle sel r c = sel ++ [Sel.mk r c].
Proof. intros H%isSelected_false. unfold toggle. by rewrite H. Qed.

Lemma toggle_in (sel : list Sel.t) (r c : nat) :
  Sel.mk r c ∈ sel ->
  toggle sel r c = List.filter (fun s => negb (Sel.at_ r c s)) sel.
Proof. intros H%isSelected_elem. unfold toggle. by rewrite H. Qed.

Lemma removed_id (sel : list Sel.t) (r c : nat) :
  Sel.mk r c ∉ sel -> List.filter (fun s => negb (Sel.at_ r c s)) sel = sel.
Proof.
  induction sel as [|x sel IH]; [done|]. intros Hnin.
  apply not_elem_of_cons in Hnin as [Hne Hnin]. simpl.
  rewrite at_eq, bool_decide_eq_false_2 by done. simpl. by rewrite IH.
Qed.

Lemma removed_NoDup (sel : list Sel.t) (r c : nat) :
  NoDup sel -> NoDup (List.filter (fun s => negb (Sel.at_ r c s)) sel).
Proof.
  induction 1 as [|x sel Hx _ IH]; simpl; [constructor|].
  destruct (negb (Sel.at_ r c x)); [|done].
  constructor; [|done]. rewrite elem_of_removed. by intros [? _].
Qed.

Lemma toggle_NoDup (sel : list Sel.t) (r c : nat) :
  NoDup sel -> NoDup (toggle sel r c).
Proof.
  intros Hnd. destruct (decide (Sel.mk r c ∈ sel)) as [Hin|Hnin].
  - rewrite toggle_in by done. by apply removed_NoDup.
  - rewrite toggle_notin by done. apply NoDup_app. split; [done|].
    split; [|apply NoDup_singleton].
    intros x Hx ->%list_elem_of_singleton. done.
Qed.

(** Toggling a coordinate that was not selected, twice, gives the list
    back. *)
Lemma toggle_twice_notin (sel : list Sel.t) (r c : nat) :
  Sel.mk r c ∉ sel -> toggle (toggle sel r c) r c = sel.
Proof.
  intros Hnin. rewrite (toggle_notin sel) by done.
  rewrite toggle_in by (apply elem_of_app; right; apply list_elem_of_singleton; done).
  rewrite List.filter_app, removed_id by done. simpl.
  rewrite at_eq, bool_decide_eq_true_2 by done. simpl. apply app_nil_r.
Qed.

(** Toggling a selected coordinate twice moves it to the end. *)
Lemma toggle_twice_in (sel : list Sel.t) (r c : nat) :
  Sel.mk r c ∈ sel ->
  toggle (toggle sel r c) r c =
    List.filter (fun s => negb (Sel.at_ r c s)) sel ++ [Sel.mk r c].
Proof.
  intros Hin. rewrite (toggle_in sel) by done.
  apply toggle_notin. rewrite elem_of_removed. by intros [_ ?].
Qed.

Lemma toggle_twice_elem (sel : list Sel.t) (r c : nat) (x : Sel.t) :
  x ∈ toggle (toggle sel r c) r c <-> x ∈ sel.
Proof.
  destruct (decide (Sel.mk r c ∈ sel)) as [Hin|Hnin].
  - rewrite toggle_twice_in by done.
    rewrite elem_of_app, elem_of_removed, list_elem_of_singleton.
    destruct (decide (x = Sel.mk r c)) as [->|]; intuition.
  - by rewrite toggle_twice_notin.
Qed.

Lemma toggle_elem (sel : list Sel.t) (r c : nat) (x : Sel.t) :
  x ∈ toggle sel r c -> x ∈ sel \/ x = Sel.mk r c.
Proof.
  destruct (decide (Sel.mk r c ∈ sel)) as [Hin|Hnin].
  - rewrite toggle_in by done. rewrite elem_of_removed. intuition.
  - rewrite toggle_notin by done.
    rewrite elem_of_app, list_elem_of_singleton. naive_solver.
Qed.

(** *** Reading cells *)

Lemma cellAt_cellOf (g : Grid) (r c : nat) (b : BlockData) :
  cellAt g r c = Some (Some b) <-> cellOf g r c = Some (Some b).
Proof.
  unfold cellAt, cellOf. destruct (g !! r) as [row|]; simpl; [|naive_solver].
  destruct (row !! c) as [cell|]; simpl; naive_solver.
Qed.

Lemma cellAt_is_Some (g : Grid) (r c : nat) :
  is_Some (cellAt g r c) <-> (r < length g)%nat.
Proof.
  unfold cellAt. destruct (g !! r) as [row|] eqn:Hrow; simpl.
  - split; intros _; [by eapply lookup_lt_Some|by eexists].
  - apply lookup_ge_None in Hrow. split; [by intros [? ?]|lia].
Qed.

Lemma cellAt_in_range (g : Grid) (r c : nat) :
  (r < length g)%nat -> cellAt g r c = Some (default None (cellOf g r c)).
Proof.
  intros [row Hrow]%lookup_lt_is_Some. unfold cellAt, cellOf.
  by rewrite Hrow.
Qed.

(** The value a coordinate adds to the sum. *)
Lemma sumSelected_acc (g : Grid) (sel : list Sel.t) (a : Z) :
  Forall (fun x => (Sel.r x < length g)%nat) sel ->
  foldl (fun acc s =>
           sum ← acc; cell ← cellAt g (Sel.r s) (Sel.c s);
           Some (sum + valueOr0 cell)) (Some a) sel =
  Some (a + foldr (fun x acc =>
                     valueOr0 (default None (cellOf g (Sel.r x) (Sel.c x))) + acc)
                  0 sel).
Proof.
  intros Hsel. revert a. induction Hsel as [|x sel Hx _ IH]; intros a.
  - simpl. f_equal. lia.
  - cbn [foldl foldr mbind option_bind]. rewrite (cellAt_in_range g) by done.
    cbn [mbind option_bind]. rewrite IH. f_equal. lia.
Qed.

Lemma sumSelected_None (g : Grid) (sel : list Sel.t) :
  foldl (fun acc s =>
           sum ← acc; cell ← cellAt g (Sel.r s) (Sel.c s);
           Some (sum + valueOr0 cell)) None sel = None.
Proof. by induction sel. Qed.

Lemma sumSelected_in_range (g : Grid) (sel : list Sel.t) :
  is_Some (sumSelected g sel) <->
  Forall (fun x => (Sel.r x < length g)%nat) sel.
Proof.
  split.
  - unfold sumSelected. generalize 0. induction sel as [|x sel IH]; intros a H.
    + constructor.
    + simpl in H. destruct (cellAt g (Sel.r x) (Sel.c x)) as [cell|] eqn:Hc.
      * simpl in H. constructor; [|by eapply IH].
        apply (cellAt_is_Some g (Sel.r x) (Sel.c x)). by eexists.
      * simpl in H. rewrite sumSelected_None in H. by destruct H.
  - intros H. unfold sumSelected. rewrite sumSelected_acc by done. by eexists.
Qed.

(** *** removeCells *)

Lemma removeCells_length (g : Grid) (sel : list Sel.t) :
  length (removeCells g sel) = length g.
Proof. unfold removeCells. by rewrite length_imap. Qed.

Lemma removeCells_cellOf (g : Grid) (sel : list Sel.t) (ri ci : nat) :
  cellOf (removeCells g sel) ri ci =
    if decide (Sel.mk ri ci ∈ sel)
    then (fun _ => None) <$> cellOf g ri ci
    else cellOf g ri ci.
Proof.
  unfold cellOf, removeCells. rewrite list_lookup_imap.
  destruct (g !! ri) as [row|]; simpl; [|by case_decide].
  rewrite list_lookup_imap.
  destruct (row !! ci) as [cell|]; simpl; [|by case_decide].
  case_decide as Hin.
  - apply isSelected_elem in Hin. by rewrite Hin.
  - apply isSelected_false in Hin. by rewrite Hin.
Qed.

End SelectionFacts.

(** ** The handlers *)

Section GameFacts.

Variable rnd : nat -> Number.double.
Variable str : Number.double -> string.

(** *** generateRow *)

Lemma generateRow_loop_spec (k : nat) (row : Row) (n : nat) :
  generateRow_loop rnd str k row n =
    (row ++ map (fun i => Some (fst (generateBlock rnd str (n + 2 * i)%nat)))
                (seq 0 k),
     (n + 2 * k)%nat).
Proof.
  revert row n. induction k as [|k IH]; intros row n.
  - simpl. by rewrite app_nil_r, Nat.add_0_r.
  - cbn [generateRow_loop]. unfold generateBlock at 1. rewrite IH.
    f_equal; [|lia]. rewrite <- app_assoc. f_equal.
    cbn [seq map app]. rewrite Nat.add_0_r. f_equal.
    rewrite <- seq_shift, map_map. apply map_ext. intros i.
    by replace (S (S n) + 2 * i)%nat with (n + 2 * S i)%nat by lia.
Qed.

Lemma generateRow_length (n : nat) :
  length (fst (generateRow rnd str n)) = GRID_COLS.
Proof.
  unfold generateRow. rewrite generateRow_loop_spec. cbn [fst].
  by rewrite length_app, List.length_map, length_seq.
Qed.

Lemma generateRow_rng (n : nat) :
  snd (generateRow rnd str n) = (n + 2 * GRID_COLS)%nat.
Proof. unfold generateRow. by rewrite generateRow_loop_spec. Qed.

Lemma generateRow_cells (n : nat) (cell : Cell) :
  cell ∈ fst (generateRow rnd str n) ->
  exists i, (i < GRID_COLS)%nat /\
    cell = Some (fst (generateBlock rnd str (n + 2 * i)%nat)).
Proof.
  unfold generateRow. rewrite generateRow_loop_spec. cbn [fst app].
  intros Hin. apply list_elem_of_In, in_map_iff in Hin.
  destruct Hin as (i & <- & Hi%in_seq). exists i. split; [lia|done].
Qed.

(** *** startGame *)

Lemma fillRows_loop_length (k r : nat) (g : Grid) (n : nat) :
  length (fst (fillRows_loop rnd str k r g n)) = length g.
Proof.
  revert r g n. induction k as [|k IH]; intros r g n; [done|].
  cbn [fillRows_loop]. destruct (generateRow rnd str n) as [row n'].
  by rewrite IH, length_insert.
Qed.

Lemma startGame_fields (m : GameMode) (s : State) :
  let s' := startGame rnd str m s in
  gameState s' = playing /\ mode s' = m /\ selected s' = [] /\
  score s' = 0 /\ timeLeft s' = TIME_MODE_SECONDS /\
  highScore s' = highScore s /\ timeouts s' = timeouts s /\
  length (grid s') = GRID_ROWS.
Proof.
  unfold startGame.
  pose proof (fillRows_loop_length INITIAL_ROWS (GRID_ROWS - INITIAL_ROWS)
                emptyGrid (rng s)) as Hlen.
  destruct (fillRows_loop _ _ _ _ _ _) as [g n1]. simpl in Hlen.
  unfold generateTarget. simpl. repeat split; done.
Qed.

(** *** addRow *)

Lemma checkGameOver_cons (row0 : Row) (rest : Grid) :
  exists over, checkGameOver (row0 :: rest) = Some over /\
    (over = true <-> exists b, Some b ∈ row0).
Proof.
  unfold checkGameOver. simpl. eexists. split; [reflexivity|].
  rewrite existsb_exists. split.
  - intros ([b|] & Hin%list_elem_of_In & Hne%bool_decide_eq_true); [|done].
    by exists b.
  - intros [b Hin]. exists (Some b). split; [by apply list_elem_of_In|].
    by apply bool_decide_eq_true.
Qed.

Lemma addRow_cons (m : GameMode) (s : State) (row0 : Row) (rest : Grid) :
  grid s = row0 :: rest ->
  exists s', addRow rnd str m s = Some s' /\
    mode s' = mode s /\ target s' = target s /\
    selected s' = selected s /\ score s' = score s /\
    highScore s' = highScore s /\ timeouts s' = timeouts s /\
    rng s' = snd (generateRow rnd str (rng s)) /\
    timeLeft s' = (if decide (m = time) then TIME_MODE_SECONDS else timeLeft s) /\
    ((exists b, Some b ∈ row0) /\
       gameState s' = gameover /\ grid s' = grid s
     \/
     Forall (fun cell => cell = None) row0 /\
       gameState s' = gameState s /\
       grid s' = rest ++ [fst (generateRow rnd str (rng s))]).
Proof.
  intros Hg. unfold addRow. rewrite Hg.
  destruct (checkGameOver_cons row0 rest) as (over & -> & Hover).
  destruct (generateRow rnd str (rng s)) as [row n'] eqn:Hrow.
  cbn [mbind option_bind fst snd].
  destruct over.
  - eexists. split; [reflexivity|].
    destruct s; case_decide; simpl in *; repeat split; try done;
      left; (split; [by apply Hover|done]).
  - eexists. split; [reflexivity|].
    assert (Forall (fun cell : Cell => cell = None) row0) as Hnone.
    { apply Forall_forall. intros [b|] Hin; [|done].
      assert (false = true); [|done]. apply Hover. by exists b. }
    destruct s; case_decide; simpl in *; repeat split; try done;
      right; done.
Qed.

Lemma addRow_Some (m : GameMode) (s s' : State) :
  addRow rnd str m s = Some s' -> exists row0 rest, grid s = row0 :: rest.
Proof.
  unfold addRow. destruct (grid s) as [|row0 rest]; [|by eauto].
  destruct (generateRow rnd str (rng s)). done.
Qed.

(** *** handleBlockClick *)

(** The three outcomes of a click on a block while playing. *)
Lemma handleBlockClick_match (r c : nat) (s : State) (b : BlockData) :
  gameState s = playing ->
  cellAt (grid s) r c = Some (Some b) ->
  sumSelected (grid s) (toggle (selected s) r c) = Some (target s) ->
  exists s', handleBlockClick rnd r c s = Some s' /\
    gameState s' = playing /\ mode s' = mode s /\
    grid s' = removeCells (grid s) (toggle (selected s) r c) /\
    target s' = fst (generateTarget rnd (rng s)) /\
    rng s' = S (rng s) /\
    selected s' = [] /\
    score s' = score s + Z.of_nat (length (toggle (selected s) r c)) * 10 /\
    highScore s' = highScore s /\
    timeLeft s' = (if decide (mode s = classic) then timeLeft s
                   else TIME_MODE_SECONDS) /\
    timeouts s' = (if decide (mode s = classic) then S (timeouts s)
                   else timeouts s).
Proof.
  intros Hp Hb Hsum. unfold handleBlockClick.
  rewrite Hp, Hb, Hsum. cbn [bool_decide decide_rel negb mbind option_bind].
  rewrite bool_decide_eq_true_2 by done. cbn [negb].
  rewrite Z.eqb_refl. unfold generateTarget.
  eexists. split; [reflexivity|].
  destruct s; case_decide; simpl in *; repeat split; done.
Qed.

Lemma handleBlockClick_overshoot (r c : nat) (s : State) (b : BlockData) (v : Z) :
  gameState s = playing ->
  cellAt (grid s) r c = Some (Some b) ->
  sumSelected (grid s) (toggle (selected s) r c) = Some v ->
  v > target s ->
  handleBlockClick rnd r c s = Some (set_selected [] s).
Proof.
  intros Hp Hb Hsum Hv. unfold handleBlockClick.
  rewrite Hp, Hb, Hsum. cbn [mbind option_bind].
  rewrite bool_decide_eq_true_2 by done. cbn [negb].
  destruct (Z.eqb_spec v (target s)); [lia|].
  destruct (Z.gtb_spec v (target s)); [done|lia].
Qed.

Lemma handleBlockClick_pending (r c : nat) (s : State) (b : BlockData) (v : Z) :
  gameState s = playing ->
  cellAt (grid s) r c = Some (Some b) ->
  sumSelected (grid s) (toggle (selected s) r c) = Some v ->
  v < target s ->
  handleBlockClick rnd r c s =
    Some (set_selected (toggle (selected s) r c) s).
Proof.
  intros Hp Hb Hsum Hv. unfold handleBlockClick.
  rewrite Hp, Hb, Hsum. cbn [mbind option_bind].
  rewrite bool_decide_eq_true_2 by done. cbn [negb].
  destruct (Z.eqb_spec v (target s)); [lia|].
  destruct (Z.gtb_spec v (target s)); [lia|done].
Qed.

(** A click is enabled on a block while playing. *)
Lemma enabled_BlockClick (r c : nat) (s : State) :
  enabled (BlockClick r c) s = true <->
  gameState s = playing /\ exists b, cellAt (grid s) r c = Some (Some b).
Proof.
  unfold enabled. rewrite andb_true_iff, bool_decide_eq_true.
  destruct (cellAt (grid s) r c) as [[b|]|].
  - split; intros [? _]; eauto.
  - split; [by intros [_ ?]|by intros [_ [? ?]]].
  - split; [by intros [_ ?]|by intros [_ [? ?]]].
Qed.

(** *** The invariant *)

Lemma toggle_in_range (g : Grid) (sel : list Sel.t) (r c : nat) :
  (r < length g)%nat ->
  Forall (fun x => (Sel.r x < length g)%nat) sel ->
  Forall (fun x => (Sel.r x < length g)%nat) (toggle sel r c).
Proof.
  intros Hr Hsel. apply Forall_forall. intros x [Hx| ->]%toggle_elem; [|done].
  by eapply Forall_forall in Hsel.
Qed.

Lemma invariant_initial : invariant initialState.
Proof.
  unfold invariant, initialState, TIME_MODE_SECONDS. simpl.
  split; [constructor|]. split; [constructor|]. split; [lia|].
  split; [lia|]. right. done.
Qed.

Lemma invariant_highScoreEffect (s : State) :
  invariant s -> invariant (highScoreEffect s).
Proof.
  unfold highScoreEffect. by destruct (score s >? highScore s), s.
Qed.

Lemma invariant_addRow (m : GameMode) (s s' : State) :
  invariant s -> addRow rnd str m s = Some s' -> invariant s'.
Proof.
  intros (Hnd & Hrange & Htime & Hscore & Hstart) Hadd.
  destruct (addRow_Some m s s' Hadd) as (row0 & rest & Hg).
  destruct (addRow_cons m s row0 rest Hg)
    as (s'' & Hadd' & _ & _ & Hsel & Hsc & _ & _ & _ & Htl & Hcases).
  rewrite Hadd in Hadd'. injection Hadd' as <-.
  assert (length (grid s') = length (grid s)) as Hlen.
  { destruct Hcases as [(_ & _ & ->)|(_ & _ & ->)]; [done|].
    rewrite Hg, length_app. simpl. lia. }
  unfold invariant, started. rewrite Hsel, Hsc, Htl, Hlen.
  split; [done|]. split; [done|].
  split; [case_decide; [unfold TIME_MODE_SECONDS; lia|done]|].
  split; [done|]. left.
  destruct Hstart as [?|(_ & _ & Hnil)]; [done|]. by rewrite Hnil in Hg.
Qed.

Lemma invariant_handleBlockClick (r c : nat) (s s' : State) :
  invariant s -> enabled (BlockClick r c) s = true ->
  handleBlockClick rnd r c s = Some s' -> invariant s'.
Proof.
  intros (Hnd & Hrange & Htime & Hscore & Hstart)
    (Hp & b & Hb)%enabled_BlockClick Hclick.
  assert (r < length (grid s))%nat as Hr
    by (apply (cellAt_is_Some (grid s) r c); by eexists).
  assert (started s) as Hst.
  { destruct Hstart as [?|(_ & _ & Hnil)]; [done|].
    rewrite Hnil in Hr. simpl in Hr. lia. }
  pose proof (toggle_in_range _ _ r c Hr Hrange) as Hrange'.
  destruct (proj2 (sumSelected_in_range _ _) Hrange') as [v Hsum].
  destruct (Z.lt_trichotomy v (target s)) as [Hlt|[->|Hgt]].
  - rewrite (handleBlockClick_pending r c s b v) in Hclick by done.
    injection Hclick as <-. unfold invariant, started. destruct s; simpl in *.
    split; [by apply toggle_NoDup|]. split; [done|]. split; [done|].
    split; [done|]. by left.
  - destruct (handleBlockClick_match r c s b Hp Hb Hsum)
      as (s'' & Hclick' & _ & _ & Hg & _ & _ & Hsel & Hsc & _ & Htl & _).
    rewrite Hclick in Hclick'. injection Hclick' as <-.
    unfold invariant, started. rewrite Hsel, Hsc, Htl, Hg, removeCells_length.
    split; [constructor|]. split; [constructor|].
    split; [case_decide; [done|unfold TIME_MODE_SECONDS; lia]|].
    split; [lia|]. by left.
  - rewrite (handleBlockClick_overshoot r c s b v) in Hclick by (done || lia).
    injection Hclick as <-. unfold invariant, started. destruct s; simpl in *.
    split; [constructor|]. split; [constructor|]. split; [done|].
    split; [done|]. by left.
Qed.

Lemma invariant_step (e : Event) (s s' : State) :
  invariant s -> step rnd str e s = Some s' -> invariant s'.
Proof.
  intros Hinv Hstep. unfold step in Hstep.
  destruct (enabled e s) eqn:Hen; [|done].
  destruct (handle rnd str e s) as [s1|] eqn:Hh; [|done].
  injection Hstep as <-. apply invariant_highScoreEffect.
  destruct e as [m|r c| | | |]; simpl in Hh.
  - injection Hh as <-.
    destruct (startGame_fields m s) as (_ & _ & Hsel & Hsc & Htl & _ & _ & Hlen).
    unfold invariant, started. rewrite Hsel, Hsc, Htl, Hlen.
    split; [constructor|]. split; [constructor|].
    split; [unfold TIME_MODE_SECONDS; lia|]. split; [lia|]. by left.
  - by eapply invariant_handleBlockClick.
  - injection Hh as <-. destruct Hinv as (Hnd & Hrange & Htime & Hscore & Hstart).
    simpl in Hen. apply bool_decide_eq_true in Hen.
    unfold invariant, started. destruct s; simpl in *.
    split; [constructor|]. split; [constructor|]. split; [done|].
    split; [done|]. destruct Hstart as [?|(? & _)]; [by left|congruence].
  - injection Hh as <-. destruct Hinv as (Hnd & Hrange & Htime & Hscore & Hstart).
    simpl in Hen. apply negb_true_iff, bool_decide_eq_false in Hen.
    unfold invariant, started. destruct s; simpl in *.
    split; [done|]. split; [done|]. split; [done|].
    split; [done|]. destruct Hstart as [?|(? & _)]; [by left|congruence].
  - unfold tick in Hh. destruct (timeLeft s <=? 1) eqn:Htl.
    + destruct (addRow rnd str time s) as [s2|] eqn:Hadd; [|done].
      simpl in Hh. injection Hh as <-.
      apply invariant_addRow in Hadd; [|done].
      destruct Hadd as (? & ? & ? & ? & ?).
      unfold invariant, started, TIME_MODE_SECONDS in *.
      destruct s2; simpl in *. split_and!; try done; lia.
    + injection Hh as <-. apply Z.leb_gt in Htl.
      destruct Hinv as (? & ? & ? & ? & ?).
      unfold invariant, started, TIME_MODE_SECONDS in *.
      destruct s; simpl in *. split_and!; try done; lia.
  - unfold fireTimeout in Hh. eapply invariant_addRow; [|exact Hh].
    simpl in Hen. apply negb_true_iff, Nat.eqb_neq in Hen.
    destruct Hinv as (? & ? & ? & ? & Hstart).
    unfold invariant, started in *. destruct s; simpl in *.
    split_and!; try done; lia.
Qed.

Lemma invariant_reachable (s : State) :
  reachable rnd str s -> invariant s.
Proof.
  induction 1 as [|e s s' _ IH Hstep]; [apply invariant_initial|].
  by eapply invariant_step.
Qed.

Lemma run_reachable (es : list Event) (s s' : State) :
  reachable rnd str s -> run rnd str es s = Some s' -> reachable rnd str s'.
Proof.
  revert s. induction es as [|e es IH]; intros s Hs Hrun; simpl in Hrun.
  - by injection Hrun as <-.
  - destruct (step rnd str e s) as [s1|] eqn:Hstep; [|done].
    simpl in Hrun. eapply IH; [|exact Hrun].
    by eapply reachable_step.
Qed.

(** *** The effect and the events *)

Lemma highScoreEffect_fields (s : State) :
  let s' := highScoreEffect s in
  gameState s' = gameState s /\ mode s' = mode s /\ grid s' = grid s /\
  target s' = target s /\ selected s' = selected s /\ score s' = score s /\
  timeLeft s' = timeLeft s /\ rng s' = rng s /\ timeouts s' = timeouts s /\
  highScore s' = Z.max (highScore s) (score s).
Proof.
  unfold highScoreEffect. destruct (Z.gtb_spec (score s) (highScore s));
    destruct s; simpl in *; split_and!; try done; lia.
Qed.

Lemma step_BlockClick (r c : nat) (s : State) (b : BlockData) :
  gameState s = playing -> cellAt (grid s) r c = Some (Some b) ->
  step rnd str (BlockClick r c) s = highScoreEffect <$> handleBlockClick rnd r c s.
Proof.
  intros Hp Hb. unfold step.
  by rewrite (proj2 (enabled_BlockClick r c s)) by eauto.
Qed.

Lemma handleBlockClick_highScore (r c : nat) (s s' : State) :
  handleBlockClick rnd r c s = Some s' -> highScore s' = highScore s.
Proof.
  unfold handleBlockClick, generateTarget. intros H.
  destruct (negb _); [by injection H as <-|].
  destruct (cellAt (grid s) r c) as [[b|]|]; simpl in H;
    [|by injection H as <-|done].
  destruct (sumSelected _ _) as [v|]; simpl in H; [|done].
  destruct (v =? target s); [|destruct (v >? target s)];
    injection H as <-; [case_decide|..]; by destruct s.
Qed.

Lemma handle_highScore (e : Event) (s s' : State) :
  handle rnd str e s = Some s' -> highScore s' = highScore s.
Proof.
  destruct e as [m|r c| | | |]; simpl; intros H.
  - injection H as <-. by destruct (startGame_fields m s) as (_&_&_&_&_&?&_).
  - by eapply handleBlockClick_highScore.
  - injection H as <-. by destruct s.
  - injection H as <-. by destruct s.
  - unfold tick in H. destruct (timeLeft s <=? 1).
    + destruct (addRow rnd str time s) as [s1|] eqn:Hadd; [|done].
      injection H as <-.
      destruct (addRow_Some _ _ _ Hadd) as (row0 & rest & Hg).
      destruct (addRow_cons time s row0 rest Hg) as (s2 & Hadd' & _&_&_&_&Hhs&_).
      rewrite Hadd in Hadd'. injection Hadd' as <-. by destruct s1.
    + injection H as <-. by destruct s.
  - unfold fireTimeout in H.
    destruct (addRow_Some _ _ _ H) as (row0 & rest & Hg).
    destruct (addRow_cons classic _ row0 rest Hg) as (s2 & Hadd' & _&_&_&_&Hhs&_).
    rewrite H in Hadd'. injection Hadd' as <-. by destruct s.
Qed.

Lemma step_highScore (e : Event) (s s' : State) :
  step rnd str e s = Some s' ->
  highScore s' = Z.max (highScore s) (score s').
Proof.
  unfold step. destruct (enabled e s); [|done].
  destruct (handle rnd str e s) as [s1|] eqn:Hh; [|done].
  intros [= <-]. apply handle_highScore in Hh.
  destruct (highScoreEffect_fields s1) as (_&_&_&_&_&->&_&_&_&->).
  by rewrite Hh.
Qed.

End GameFacts.

(** * The properties of the specification *)

Section Claims.

Variable rnd : nat -> Number.double.
Variable str : Number.double -> string.

(** C1. Row advance: called on a board while playing, [addRow] either
    finds a block in row 0 of the board it was given, sets the phase to
    [gameover] and leaves the board as it was, or finds row 0 empty, keeps
    the phase [playing] and replaces the board by the old one without its
    row 0 and with one freshly generated row of [GRID_COLS] blocks at the
    bottom. *)
Theorem addRow_advance (m : GameMode) (s : State) (row0 : Row) (rest : Grid) :
  gameState s = playing ->
  grid s = row0 :: rest ->
  exists s', addRow rnd str m s = Some s' /\
    ((exists b, Some b ∈ row0) /\
       gameState s' = gameover /\ grid s' = row0 :: rest
     \/
     Forall (fun cell => cell = None) row0 /\
       gameState s' = playing /\
       grid s' = rest ++ [fst (generateRow rnd str (rng s))] /\
       length (fst (generateRow rnd str (rng s))) = GRID_COLS).
Proof.
  intros Hp Hg.
  destruct (addRow_cons rnd str m s row0 rest Hg)
    as (s' & Hadd & _ & _ & _ & _ & _ & _ & _ & _ & Hcases).
  exists s'. split; [done|].
  destruct Hcases as [(Hocc & Hgs & Hgrid)|(Hnone & Hgs & Hgrid)].
  - left. by rewrite Hgrid, Hg.
  - right. rewrite Hgs, Hgrid. split_and!; try done.
Qed.

(** C2. Match: a click on a block while playing whose toggled selection
    sums to the target adds 10 points per selected coordinate to the
    score, empties exactly the selected positions of the grid and leaves
    every other position as it was, clears the selection and draws a new
    target. *)
Theorem click_match (r c : nat) (s : State) (b : BlockData) :
  gameState s = playing ->
  cellAt (grid s) r c = Some (Some b) ->
  sumSelected (grid s) (toggle (selected s) r c) = Some (target s) ->
  exists s', step rnd str (BlockClick r c) s = Some s' /\
    score s' = score s + 10 * Z.of_nat (length (toggle (selected s) r c)) /\
    (forall ri ci,
       cellOf (grid s') ri ci =
         if decide (Sel.mk ri ci ∈ toggle (selected s) r c)
         then (fun _ => None) <$> cellOf (grid s) ri ci
         else cellOf (grid s) ri ci) /\
    selected s' = [] /\
    target s' = fst (generateTarget rnd (rng s)) /\
    rng s' = S (rng s).
Proof.
  intros Hp Hb Hsum. rewrite (step_BlockClick rnd str r c s b) by done.
  destruct (handleBlockClick_match rnd r c s b Hp Hb Hsum)
    as (s1 & -> & _ & _ & Hg & Ht & Hrng & Hsel & Hsc & _).
  eexists. split; [reflexivity|].
  destruct (highScoreEffect_fields s1) as (_&_&->&->&->&->&_&->&_).
  rewrite Hg, Ht, Hrng, Hsel, Hsc. split_and!; try done; [lia|].
  intros ri ci. apply removeCells_cellOf.
Qed.

(** C6. Overshoot: a click on a block while playing whose toggled
    selection sums to more than the target clears the whole selection and
    leaves the score and the board as they were. *)
Theorem click_overshoot (r c : nat) (s : State) (b : BlockData) (v : Z) :
  gameState s = playing ->
  cellAt (grid s) r c = Some (Some b) ->
  sumSelected (grid s) (toggle (selected s) r c) = Some v ->
  v > target s ->
  exists s', step rnd str (BlockClick r c) s = Some s' /\
    selected s' = [] /\ score s' = score s /\ grid s' = grid s.
Proof.
  intros Hp Hb Hsum Hv. rewrite (step_BlockClick rnd str r c s b) by done.
  rewrite (handleBlockClick_overshoot rnd r c s b v) by done.
  eexists. split; [reflexivity|].
  destruct (highScoreEffect_fields (set_selected [] s)) as (_&_&->&_&->&->&_).
  by destruct s.
Qed.

(** Taking a coordinate out of a selection without duplicates leaves what
    was before it followed by what was after it. *)
Lemma removed_middle (l1 l2 : list Sel.t) (r c : nat) :
  NoDup (l1 ++ Sel.mk r c :: l2) ->
  List.filter (fun s => negb (Sel.at_ r c s)) (l1 ++ Sel.mk r c :: l2) = l1 ++ l2.
Proof.
  intros Hnd. apply NoDup_app in Hnd as (_ & Hl1 & Hnd).
  apply NoDup_cons in Hnd as [Hl2 _].
  rewrite List.filter_app. cbn [List.filter].
  rewrite at_eq, bool_decide_eq_true_2 by done. cbn [negb].
  rewrite !removed_id; [done|done|].
  intros Hin. apply (Hl1 _ Hin). by left.
Qed.

(** C4, as amended. Two clicks in a row on the same block while playing,
    neither of which reaches or exceeds the target (both toggled
    selections sum to less than the target), leave the board as it was and
    a selection with the same members as before.  If the block was not
    selected before the first click, the selection is exactly the prior
    one.  If it was, the selection is the prior one with that coordinate
    taken out and put at the end: for a prior selection [l1 ++ (r,c) :: l2]
    without duplicates it is [l1 ++ l2 ++ [(r,c)]]. *)
Theorem click_twice_pending (r c : nat) (s : State) (b : BlockData) (v1 v2 : Z) :
  gameState s = playing ->
  cellAt (grid s) r c = Some (Some b) ->
  sumSelected (grid s) (toggle (selected s) r c) = Some v1 -> v1 < target s ->
  sumSelected (grid s) (toggle (toggle (selected s) r c) r c) = Some v2 ->
  v2 < target s ->
  exists s1 s2,
    step rnd str (BlockClick r c) s = Some s1 /\
    step rnd str (BlockClick r c) s1 = Some s2 /\
    grid s2 = grid s /\
    (forall x, x ∈ selected s2 <-> x ∈ selected s) /\
    (Sel.mk r c ∉ selected s -> selected s2 = selected s) /\
    (Sel.mk r c ∈ selected s ->
     selected s2 =
       List.filter (fun x => negb (Sel.at_ r c x)) (selected s) ++ [Sel.mk r c]) /\
    (forall l1 l2,
       selected s = l1 ++ Sel.mk r c :: l2 -> NoDup (selected s) ->
       selected s2 = l1 ++ l2 ++ [Sel.mk r c]).
Proof.
  intros Hp Hb Hs1 Hv1 Hs2 Hv2.
  set (s1 := highScoreEffect (set_selected (toggle (selected s) r c) s)).
  destruct (highScoreEffect_fields (set_selected (toggle (selected s) r c) s))
    as (Hgs1 & _ & Hg1 & Ht1 & Hsel1 & _). fold s1 in Hgs1, Hg1, Ht1, Hsel1.
  assert (gameState s1 = playing) as Hp1 by (rewrite Hgs1; by destruct s).
  assert (grid s1 = grid s) as Hg1' by (rewrite Hg1; by destruct s).
  assert (target s1 = target s) as Ht1' by (rewrite Ht1; by destruct s).
  assert (selected s1 = toggle (selected s) r c) as Hsel1'
    by (rewrite Hsel1; by destruct s).
  destruct (highScoreEffect_fields (set_selected (toggle (selected s1) r c) s1))
    as (_ & _ & Hg2 & _ & Hsel2 & _).
  set (s2 := highScoreEffect (set_selected (toggle (selected s1) r c) s1)) in *.
  assert (selected s2 = toggle (toggle (selected s) r c) r c) as Hsel2'
    by (rewrite Hsel2, <- Hsel1'; by destruct s1).
  exists s1, s2. split_and!.
  - rewrite (step_BlockClick rnd str r c s b) by done.
    by rewrite (handleBlockClick_pending rnd r c s b v1).
  - rewrite (step_BlockClick rnd str r c s1 b) by (by rewrite ?Hg1').
    rewrite (handleBlockClick_pending rnd r c s1 b v2); [done|done|..].
    + by rewrite Hg1'.
    + by rewrite Hg1', Hsel1'.
    + by rewrite Ht1'.
  - rewrite Hg2, <- Hg1'. by destruct s1.
  - intros x. rewrite Hsel2'. apply toggle_twice_elem.
  - intros Hnin. rewrite Hsel2'. by apply toggle_twice_notin.
  - intros Hin. rewrite Hsel2'. by apply toggle_twice_in.
  - intros l1 l2 Hsel Hnd. rewrite Hsel2', toggle_twice_in.
    + rewrite Hsel in *. by rewrite removed_middle, <- app_assoc.
    + rewrite Hsel. apply elem_of_app. right. by left.
Qed.

(** C5, as amended. In every reachable state the selection has no
    duplicate coordinates; every event whose handler does not call
    [addRow] keeps every selected coordinate on a block of the board if
    they all were on one before; and an event whose handler calls [addRow]
    leaves the selection as it is, whatever the rows do. *)
Theorem selection_invariant (s : State) :
  reachable rnd str s ->
  NoDup (selected s) /\
  (forall e s',
     advances e s = false -> selectionOccupied s ->
     step rnd str e s = Some s' -> selectionOccupied s') /\
  (forall e s',
     advances e s = true ->
     step rnd str e s = Some s' -> selected s' = selected s).
Proof.
  intros Hreach. pose proof (invariant_reachable rnd str s Hreach) as Hinv.
  split; [by destruct Hinv|]. split; cycle 1.
  { intros e s' Hadv Hstep. unfold step in Hstep.
    destruct (enabled e s) eqn:Hen; [|done].
    destruct (handle rnd str e s) as [s1|] eqn:Hh; [|done].
    injection Hstep as <-.
    destruct (highScoreEffect_fields s1) as (_ & _ & _ & _ & -> & _).
    destruct e as [m|r c| | | |]; simpl in Hh, Hadv; try done.
    - unfold tick in Hh. rewrite Hadv in Hh.
      destruct (addRow rnd str time s) as [s2|] eqn:Hadd; [|done].
      injection Hh as <-.
      destruct (addRow_Some rnd str _ _ _ Hadd) as (row0 & rest & Hg).
      destruct (addRow_cons rnd str time s row0 rest Hg)
        as (s3 & Hadd' & _ & _ & Hsel & _).
      rewrite Hadd in Hadd'. injection Hadd' as <-. rewrite <- Hsel.
      by destruct s2.
    - unfold fireTimeout in Hh.
      destruct (addRow_Some rnd str _ _ _ Hh) as (row0 & rest & Hg).
      destruct (addRow_cons rnd str classic _ row0 rest Hg)
        as (s3 & Hadd' & _ & _ & Hsel & _).
      rewrite Hh in Hadd'. injection Hadd' as <-. rewrite Hsel.
      by destruct s. }
  intros e s' Hadv Hocc Hstep. unfold step in Hstep.
  destruct (enabled e s) eqn:Hen; [|done].
  destruct (handle rnd str e s) as [s1|] eqn:Hh; [|done].
  injection Hstep as <-. unfold selectionOccupied.
  destruct (highScoreEffect_fields s1) as (_ & _ & -> & _ & -> & _).
  destruct e as [m|r c| | | |]; simpl in Hh, Hadv; try done.
  - injection Hh as <-.
    destruct (startGame_fields rnd str m s) as (_ & _ & -> & _). constructor.
  - apply enabled_BlockClick in Hen as (Hp & b & Hb).
    destruct Hinv as (_ & Hrange & _).
    assert (r < length (grid s))%nat as Hr
      by (apply (cellAt_is_Some (grid s) r c); by eexists).
    pose proof (toggle_in_range _ _ r c Hr Hrange) as Hrange'.
    destruct (proj2 (sumSelected_in_range _ _) Hrange') as [v Hsum].
    destruct (Z.lt_trichotomy v (target s)) as [Hlt|[->|Hgt]].
    + rewrite (handleBlockClick_pending rnd r c s b v) in Hh by done.
      injection Hh as <-. replace (grid (set_selected _ s)) with (grid s)
        by (by destruct s).
      replace (selected (set_selected (toggle (selected s) r c) s))
        with (toggle (selected s) r c) by (by destruct s).
      apply Forall_forall. intros x [Hx| ->]%toggle_elem.
      * by eapply Forall_forall in Hocc.
      * exists b. by apply cellAt_cellOf.
    + destruct (handleBlockClick_match rnd r c s b Hp Hb Hsum)
        as (s2 & Hh' & _ & _ & _ & _ & _ & Hsel & _).
      rewrite Hh in Hh'. injection Hh' as <-. rewrite Hsel. constructor.
    + rewrite (handleBlockClick_overshoot rnd r c s b v) in Hh by (done || lia).
      injection Hh as <-. replace (selected (set_selected [] s)) with (@nil Sel.t)
        by (by destruct s). constructor.
  - injection Hh as <-. replace (selected (set_selected [] s)) with (@nil Sel.t)
      by (by destruct s). constructor.
  - injection Hh as <-. by destruct s.
  - unfold tick in Hh. rewrite Hadv in Hh. injection Hh as <-. by destruct s.
Qed.

(** C7. Timer: in time mode while playing, a tick takes one second off
    [timeLeft], except when one second is left: then the same transition
    calls [addRow] and sets [timeLeft] back to [TIME_MODE_SECONDS].
    [timeLeft] is between 1 and [TIME_MODE_SECONDS] before and after, so it
    is never 0. *)
Theorem timer_tick (s : State) :
  reachable rnd str s ->
  gameState s = playing -> mode s = time ->
  exists s', step rnd str TimerTick s = Some s' /\
    1 <= timeLeft s <= TIME_MODE_SECONDS /\
    1 <= timeLeft s' <= TIME_MODE_SECONDS /\
    (timeLeft s <> 1 ->
       timeLeft s' = timeLeft s - 1 /\
       grid s' = grid s /\ gameState s' = playing) /\
    (timeLeft s = 1 ->
       timeLeft s' = TIME_MODE_SECONDS /\
       exists s1, addRow rnd str time s = Some s1 /\
         grid s' = grid s1 /\ gameState s' = gameState s1).
Proof.
  intros Hreach Hp Hm.
  pose proof (invariant_reachable rnd str s Hreach) as (_ & _ & Htl & _ & Hst).
  assert (exists row0 rest, grid s = row0 :: rest) as (row0 & rest & Hg).
  { destruct Hst as [Hst|(Hmenu & _)]; [|congruence].
    unfold started in Hst. destruct (grid s); [done|by eauto]. }
  unfold step, enabled. rewrite !bool_decide_eq_true_2 by done.
  cbn [andb handle]. unfold tick.
  destruct (Z.leb_spec (timeLeft s) 1) as [Hle|Hgt].
  - destruct (addRow_cons rnd str time s row0 rest Hg) as (s1 & -> & _).
    cbn [mbind option_bind fmap option_fmap option_map].
    eexists. split; [reflexivity|].
    destruct (highScoreEffect_fields (set_timeLeft TIME_MODE_SECONDS s1))
      as (-> & _ & -> & _ & _ & _ & -> & _).
    unfold TIME_MODE_SECONDS in *. destruct s1; simpl.
    split_and!; try lia. intros _. split; [done|]. by eexists.
  - cbn [fmap option_fmap option_map]. eexists. split; [reflexivity|].
    destruct (highScoreEffect_fields (set_timeLeft (timeLeft s - 1) s))
      as (-> & _ & -> & _ & _ & _ & -> & _).
    unfold TIME_MODE_SECONDS in *. destruct s; simpl in *.
    split_and!; try lia. intros _. done.
Qed.

(** C8. Ranges: with [Math.random] in its range, every target drawn lies
    between [TARGET_MIN] and [TARGET_MAX] (10 and 30), every generated row
    has [GRID_COLS] (6) cells, and each of them is a block whose value lies
    between 1 and 9. *)
Theorem generated_ranges (n : nat) :
  (forall i, Number.unit_interval (rnd i) = true) ->
  TARGET_MIN <= fst (generateTarget rnd n) <= TARGET_MAX /\
  length (fst (generateRow rnd str n)) = GRID_COLS /\
  forall cell, cell ∈ fst (generateRow rnd str n) ->
    exists b, cell = Some b /\ 1 <= value b <= 9.
Proof.
  intros Hrnd. split_and!.
  - unfold generateTarget. cbn [fst].
    pose proof (NumberFacts.floor_mul_target (rnd n) (Hrnd n)). lia.
  - unfold generateTarget. cbn [fst].
    pose proof (NumberFacts.floor_mul_target (rnd n) (Hrnd n)). lia.
  - apply generateRow_length.
  - intros cell (i & _ & ->)%generateRow_cells. eexists. split; [done|].
    unfold generateBlock. cbn [fst value].
    pose proof (NumberFacts.floor_mul_value _ (Hrnd (S (n + 2 * i)))). lia.
Qed.

(** The best score along a run, from any state whose best score is at
    least its score. *)
Lemma run_highScore (es : list Event) (s s' : State) :
  0 <= highScore s -> score s <= highScore s ->
  run rnd str es s = Some s' ->
  highScore s' = Z.max (highScore s) (maxScore (map score (states rnd str es s))) /\
  score s' <= highScore s'.
Proof.
  revert s. induction es as [|e es IH]; intros s H0 Hle Hrun.
  - injection Hrun as <-. simpl. unfold maxScore. simpl. lia.
  - simpl in Hrun. cbn [states].
    destruct (step rnd str e s) as [s1|] eqn:Hstep; [|done]. simpl in Hrun.
    pose proof (step_highScore rnd str e s s1 Hstep) as Hhs.
    destruct (IH s1) as [-> Hle']; [lia|lia|done|].
    split; [|done]. destruct es as [|e' es]; cbn [states map] in *;
      unfold maxScore in *; cbn [foldr] in *; lia.
Qed.

(** C9. Best score: after any sequence of events from the first render,
    [highScore] is the greatest score of all the states visited, it equals
    [max(highScore, score)], and no further event makes it smaller. *)
Theorem highScore_is_max (es : list Event) (s : State) :
  run rnd str es initialState = Some s ->
  highScore s = maxScore (map score (states rnd str es initialState)) /\
  highScore s = Z.max (highScore s) (score s) /\
  forall e s', step rnd str e s = Some s' -> highScore s <= highScore s'.
Proof.
  intros Hrun.
  destruct (run_highScore es initialState s) as [Hhs Hle]; [done|done|done|].
  split_and!.
  - rewrite Hhs. simpl.
    assert (0 <= maxScore (map score (states rnd str es initialState))); [|lia].
    unfold maxScore. destruct es; cbn [states map foldr]; simpl; lia.
  - lia.
  - intros e s' Hstep. rewrite (step_highScore rnd str e s s' Hstep). lia.
Qed.

(** C10. The sum of the selection never faults: in every reachable state
    it has a value, as has the sum of the selection toggled by a click on
    a block; and a selected coordinate whose cell is empty adds 0 to it. *)
Theorem sumSelected_total (s : State) :
  reachable rnd str s ->
  is_Some (sumSelected (grid s) (selected s)) /\
  (forall r c b, cellAt (grid s) r c = Some (Some b) ->
     is_Some (sumSelected (grid s) (toggle (selected s) r c))) /\
  (forall x l1 l2,
     selected s = l1 ++ x :: l2 ->
     cellAt (grid s) (Sel.r x) (Sel.c x) = Some None ->
     sumSelected (grid s) (selected s) = sumSelected (grid s) (l1 ++ l2)).
Proof.
  intros Hreach.
  pose proof (invariant_reachable rnd str s Hreach) as (_ & Hrange & _).
  split_and!.
  - by apply sumSelected_in_range.
  - intros r c b Hb. apply sumSelected_in_range, toggle_in_range; [|done].
    apply (cellAt_is_Some (grid s) r c). by eexists.
  - intros x l1 l2 Hsel Hx. rewrite Hsel in *.
    assert (Forall (fun x => (Sel.r x < length (grid s))%nat) (l1 ++ l2)) as Hrange'.
    { apply Forall_app in Hrange as [H1 H2]. apply Forall_cons in H2 as [_ H2].
      by apply Forall_app. }
    unfold sumSelected. rewrite !sumSelected_acc by done. f_equal. f_equal.
    rewrite !foldr_app. cbn [foldr].
    assert (cellOf (grid s) (Sel.r x) (Sel.c x) = None \/
            cellOf (grid s) (Sel.r x) (Sel.c x) = Some None) as Hcell.
    { unfold cellAt, cellOf in *.
      destruct (grid s !! Sel.r x) as [row|]; simpl in *; [|done].
      destruct (row !! Sel.c x) as [[b|]|]; simpl in *; [done|by right|by left]. }
    by destruct Hcell as [-> | ->].
Qed.

End Claims.

(** * Sample runs of the properties *)

Lemma after_reachable (random : nat -> Number.double) (es : list Event) :
  is_Some (run random noId es initialState) ->
  reachable random noId (after random es).
Proof.
  intros [s Hrun]. unfold after. rewrite Hrun. simpl.
  eapply run_reachable; [apply reachable_init|exact Hrun].
Qed.

Lemma addRow_advance_witness :
  exists s',
    addRow alwaysHalf noId classic (after alwaysHalf [StartGame classic]) = Some s' /\
    gameState s' = playing.
Proof.
  destruct (addRow_advance alwaysHalf noId classic
              (after alwaysHalf [StartGame classic])
              (replicate GRID_COLS None)
              (drop 1 (grid (after alwaysHalf [StartGame classic]))))
    as (s' & Hadd & [(Hocc & _)|(_ & Hgs & _)]).
  - vm_compute. reflexivity.
  - vm_compute. reflexivity.
  - exfalso. destruct Hocc as [b Hb].
    apply elem_of_replicate in Hb as [Hb _]. discriminate.
  - exists s'. split; [exact Hadd|exact Hgs].
Defined.

Lemma click_match_witness :
  exists s',
    step alwaysHalf noId (BlockClick 9 3) (after alwaysHalf threeSelected) = Some s' /\
    score s' = 40 /\ selected s' = [] /\ cellOf (grid s') 9 3 = Some None /\
    cellOf (grid s') 9 4 = Some (Some five).
Proof.
  destruct (click_match alwaysHalf noId 9 3 (after alwaysHalf threeSelected) five)
    as (s' & Hstep & Hsc & Hcells & Hsel & _).
  - vm_compute. reflexivity.
  - vm_compute. reflexivity.
  - vm_compute. reflexivity.
  - exists s'. split_and!; [exact Hstep| |exact Hsel| |].
    + rewrite Hsc. vm_compute. reflexivity.
    + rewrite Hcells. vm_compute. reflexivity.
    + rewrite Hcells. vm_compute. reflexivity.
Defined.

Lemma click_overshoot_witness :
  exists s',
    step alwaysBelowOne noId (BlockClick 9 3) (after alwaysBelowOne threeSelected)
      = Some s' /\
    selected s' = [] /\ score s' = 0.
Proof.
  destruct (click_overshoot alwaysBelowOne noId 9 3
              (after alwaysBelowOne threeSelected) nine 36)
    as (s' & Hstep & Hsel & Hsc & _).
  - vm_compute. reflexivity.
  - vm_compute. reflexivity.
  - vm_compute. reflexivity.
  - vm_compute. reflexivity.
  - exists s'. split_and!; [exact Hstep|exact Hsel|].
    rewrite Hsc. vm_compute. reflexivity.
Defined.

(** C4 fails as stated, in two ways.  Three blocks of value 9 are
    selected under target 30: a click on a fourth block overshoots and
    clears the selection, and the second click on it selects that block
    alone.  Three blocks of value 5 are selected under target 20: two
    clicks on the first of them, both below the target, take it out and
    put it back at the end, so the order of the selection has changed. *)
Lemma click_twice_counterexample :
  (reachable alwaysBelowOne noId (after alwaysBelowOne threeSelected) /\
   gameState (after alwaysBelowOne threeSelected) = playing /\
   cellAt (grid (after alwaysBelowOne threeSelected)) 9 3 = Some (Some nine) /\
   exists s1 s2,
     step alwaysBelowOne noId (BlockClick 9 3) (after alwaysBelowOne threeSelected)
       = Some s1 /\
     step alwaysBelowOne noId (BlockClick 9 3) s1 = Some s2 /\
     selected (after alwaysBelowOne threeSelected)
       = [Sel.mk 9 0; Sel.mk 9 1; Sel.mk 9 2] /\
     selected s2 = [Sel.mk 9 3] /\
     selected s2 <> selected (after alwaysBelowOne threeSelected)) /\
  (reachable alwaysHalf noId (after alwaysHalf threeSelected) /\
   gameState (after alwaysHalf threeSelected) = playing /\
   cellAt (grid (after alwaysHalf threeSelected)) 9 0 = Some (Some five) /\
   target (after alwaysHalf threeSelected) = 20 /\
   exists s1 s2,
     step alwaysHalf noId (BlockClick 9 0) (after alwaysHalf threeSelected)
       = Some s1 /\
     step alwaysHalf noId (BlockClick 9 0) s1 = Some s2 /\
     selected (after alwaysHalf threeSelected)
       = [Sel.mk 9 0; Sel.mk 9 1; Sel.mk 9 2] /\
     selected s1 = [Sel.mk 9 1; Sel.mk 9 2] /\
     selected s2 = [Sel.mk 9 1; Sel.mk 9 2; Sel.mk 9 0] /\
     grid s2 = grid (after alwaysHalf threeSelected) /\
     score s2 = score (after alwaysHalf threeSelected) /\
     selected s2 <> selected (after alwaysHalf threeSelected)).
Proof.
  split; split_and!.
  - apply after_reachable. vm_compute. by eexists.
  - vm_compute. reflexivity.
  - vm_compute. reflexivity.
  - do 2 eexists. split_and!; [vm_compute; reflexivity..|].
    vm_compute. discriminate.
  - apply after_reachable. vm_compute. by eexists.
  - vm_compute. reflexivity.
  - vm_compute. reflexivity.
  - vm_compute. reflexivity.
  - do 2 eexists. split_and!; [vm_compute; reflexivity..|].
    vm_compute. discriminate.
Qed.

Lemma click_twice_pending_witness :
  (exists s1 s2,
     step alwaysHalf noId (BlockClick 9 0) (after alwaysHalf [StartGame classic])
       = Some s1 /\
     step alwaysHalf noId (BlockClick 9 0) s1 = Some s2 /\
     selected s2 = selected (after alwaysHalf [StartGame classic])) /\
  (exists s1 s2,
     step alwaysHalf noId (BlockClick 9 1) (after alwaysHalf threeSelected)
       = Some s1 /\
     step alwaysHalf noId (BlockClick 9 1) s1 = Some s2 /\
     selected (after alwaysHalf threeSelected)
       = [Sel.mk 9 0] ++ Sel.mk 9 1 :: [Sel.mk 9 2] /\
     selected s2 = [Sel.mk 9 0] ++ [Sel.mk 9 2] ++ [Sel.mk 9 1]).
Proof.
  split.
  - destruct (click_twice_pending alwaysHalf noId 9 0
                (after alwaysHalf [StartGame classic]) five 5 0)
      as (s1 & s2 & H1 & H2 & _ & _ & Hsame & _).
    + vm_compute. reflexivity.
    + vm_compute. reflexivity.
    + vm_compute. reflexivity.
    + vm_compute. reflexivity.
    + vm_compute. reflexivity.
    + vm_compute. reflexivity.
    + exists s1, s2. split_and!; [exact H1|exact H2|].
      apply Hsame. intros Hin. vm_compute in Hin. inversion Hin.
  - destruct (click_twice_pending alwaysHalf noId 9 1
                (after alwaysHalf threeSelected) five 10 15)
      as (s1 & s2 & H1 & H2 & _ & _ & _ & _ & Hmoved).
    + vm_compute. reflexivity.
    + vm_compute. reflexivity.
    + vm_compute. reflexivity.
    + vm_compute. reflexivity.
    + vm_compute. reflexivity.
    + vm_compute. reflexivity.
    + assert (selected (after alwaysHalf threeSelected)
              = [Sel.mk 9 0] ++ Sel.mk 9 1 :: [Sel.mk 9 2]) as Hsel
        by (vm_compute; reflexivity).
      exists s1, s2. split_and!; [exact H1|exact H2|exact Hsel|].
      apply (Hmoved [Sel.mk 9 0] [Sel.mk 9 2] Hsel).
      rewrite Hsel. apply (bool_decide_unpack _). vm_compute. exact I.
Defined.

(** C5 fails as stated: after a match in the bottom row a block of row 8
    is selected; the deferred [addRow] then moves the emptied cell of the
    bottom row under the selected coordinate. *)
Lemma selection_occupied_counterexample :
  reachable alwaysHalf noId
    (after alwaysHalf (fourMatched ++ [BlockClick 8 0; TimeoutFires])) /\
  gameState (after alwaysHalf (fourMatched ++ [BlockClick 8 0; TimeoutFires]))
    = playing /\
  ~ selectionOccupied
      (after alwaysHalf (fourMatched ++ [BlockClick 8 0; TimeoutFires])).
Proof.
  split_and!.
  - apply after_reachable. vm_compute. by eexists.
  - vm_compute. reflexivity.
  - unfold selectionOccupied. intros Hocc.
    assert (Sel.mk 8 0 ∈
            selected (after alwaysHalf (fourMatched ++ [BlockClick 8 0; TimeoutFires])))
      as Hin by (vm_compute; left).
    eapply Forall_forall in Hocc as [b Hb]; [|exact Hin].
    vm_compute in Hb. discriminate.
Qed.

Lemma selection_invariant_witness :
  reachable alwaysHalf noId (after alwaysHalf threeSelected) /\
  NoDup (selected (after alwaysHalf threeSelected)) /\
  selectionOccupied (after alwaysHalf (threeSelected ++ [MainMenu])) /\
  selected (after alwaysHalf (fourMatched ++ [BlockClick 8 0; TimeoutFires]))
    = selected (after alwaysHalf (fourMatched ++ [BlockClick 8 0])).
Proof.
  assert (reachable alwaysHalf noId (after alwaysHalf threeSelected)) as Hreach
    by (apply after_reachable; vm_compute; by eexists).
  destruct (selection_invariant alwaysHalf noId _ Hreach) as (Hnd & Hkeep & _).
  split_and!; [exact Hreach|exact Hnd| |].
  - apply (Hkeep MainMenu).
    + vm_compute. reflexivity.
    + unfold selectionOccupied.
      replace (selected (after alwaysHalf threeSelected))
        with [Sel.mk 9 0; Sel.mk 9 1; Sel.mk 9 2] by (vm_compute; reflexivity).
      repeat constructor; exists five; vm_compute; reflexivity.
    + vm_compute. reflexivity.
  - assert (reachable alwaysHalf noId
              (after alwaysHalf (fourMatched ++ [BlockClick 8 0]))) as Hreach'
      by (apply after_reachable; vm_compute; by eexists).
    destruct (selection_invariant alwaysHalf noId _ Hreach') as (_ & _ & Hsame).
    apply (Hsame TimeoutFires).
    + vm_compute. reflexivity.
    + vm_compute. reflexivity.
Defined.

Lemma timer_tick_witness :
  exists s',
    step alwaysHalf noId TimerTick (after alwaysHalf [StartGame time]) = Some s' /\
    timeLeft s' = 9.
Proof.
  destruct (timer_tick alwaysHalf noId (after alwaysHalf [StartGame time]))
    as (s' & Hstep & _ & _ & Hdec & _).
  - apply after_reachable. vm_compute. by eexists.
  - vm_compute. reflexivity.
  - vm_compute. reflexivity.
  - exists s'. split; [exact Hstep|].
    destruct Hdec as [-> _]; [|vm_compute; reflexivity].
    vm_compute. discriminate.
Defined.

Lemma generated_ranges_witness :
  (forall i, Number.unit_interval (alwaysHalf i) = true) /\
  TARGET_MIN <= fst (generateTarget alwaysHalf 0) <= TARGET_MAX.
Proof.
  assert (forall i, Number.unit_interval (alwaysHalf i) = true) as Hrnd
    by (intros i; vm_compute; reflexivity).
  split; [exact Hrnd|].
  exact (proj1 (generated_ranges alwaysHalf noId 0 Hrnd)).
Defined.

Lemma highScore_is_max_witness :
  run alwaysHalf noId fourMatched initialState = Some (after alwaysHalf fourMatched) /\
  highScore (after alwaysHalf fourMatched) = 40.
Proof.
  assert (run alwaysHalf noId fourMatched initialState
          = Some (after alwaysHalf fourMatched)) as Hrun
    by (vm_compute; reflexivity).
  split; [exact Hrun|].
  rewrite (proj1 (highScore_is_max alwaysHalf noId fourMatched _ Hrun)).
  vm_compute. reflexivity.
Defined.

Lemma sumSelected_total_witness :
  reachable alwaysHalf noId
    (after alwaysHalf (fourMatched ++ [BlockClick 8 0; TimeoutFires])) /\
  is_Some (sumSelected
             (grid (after alwaysHalf (fourMatched ++ [BlockClick 8 0; TimeoutFires])))
             (selected (after alwaysHalf (fourMatched ++ [BlockClick 8 0; TimeoutFires])))).
Proof.
  assert (reachable alwaysHalf noId
            (after alwaysHalf (fourMatched ++ [BlockClick 8 0; TimeoutFires])))
    as Hreach by (apply after_reachable; vm_compute; by eexists).
  split; [exact Hreach|].
  exact (proj1 (sumSelected_total alwaysHalf noId _ Hreach)).
Defined.

(** C3 on the code: a deferred [addRow] scheduled by a match outlives its
    round.  Fired after the round was left and a new one started, it
    shifts the board of the new round; fired on the menu with a block in
    row 0, it ends the round that was left and switches to the game-over
    screen. *)
Lemma stale_addRow :
  (let s := after alwaysHalf (fourMatched ++ [MainMenu; StartGame classic]) in
   reachable alwaysHalf noId s /\
   gameState s = playing /\ score s = 0 /\ selected s = [] /\
   timeouts s = 1%nat /\
   exists s', step alwaysHalf noId TimeoutFires s = Some s' /\
     grid s' = drop 1 (grid s) ++ [fst (generateRow alwaysHalf noId (rng s))] /\
     grid s' <> grid s) /\
  (let s := after alwaysHalf (risenToTop ++ matchBottom ++ [MainMenu]) in
   reachable alwaysHalf noId s /\
   gameState s = menu /\ timeouts s = 1%nat /\
   exists s', step alwaysHalf noId TimeoutFires s = Some s' /\
     gameState s' = gameover).
Proof.
  split; cbv zeta; split_and!.
  - apply after_reachable. vm_compute. by eexists.
  - vm_compute. reflexivity.
  - vm_compute. reflexivity.
  - vm_compute. reflexivity.
  - vm_compute. reflexivity.
  - eexists. split_and!; [vm_compute; reflexivity|vm_compute; reflexivity|].
    vm_compute. discriminate.
  - apply after_reachable. vm_compute. by eexists.
  - vm_compute. reflexivity.
  - vm_compute. reflexivity.
  - eexists. split; vm_compute; reflexivity.
Qed.

(** * Further properties of the handlers *)

Section MoreFacts.

Variable rnd : nat -> Number.double.
Variable str : Number.double -> string.

(** ** The board of a new round *)

Lemma fillRows_loop_spec (k r : nat) (g : Grid) (n : nat) :
  (r + k <= length g)%nat ->
  fillRows_loop rnd str k r g n =
    (take r g
       ++ map (fun j => fst (generateRow rnd str (n + 2 * GRID_COLS * j)%nat)) (seq 0 k)
       ++ drop (r + k) g,
     (n + 2 * GRID_COLS * k)%nat).
Proof.
  revert r g n. induction k as [|k IH]; intros r g n Hlen.
  - cbn [fillRows_loop seq map app]. rewrite Nat.add_0_r, take_drop.
    f_equal. lia.
  - cbn [fillRows_loop].
    destruct (generateRow rnd str n) as [row n'] eqn:Hrow.
    assert (row = fst (generateRow rnd str n)) as Hr by (by rewrite Hrow).
    assert (n' = (n + 2 * GRID_COLS)%nat) as Hn'
      by (rewrite <- (generateRow_rng rnd str n); by rewrite Hrow).
    rewrite IH by (rewrite length_insert; lia). f_equal; [|lia].
    rewrite (take_S_r _ _ row) by (apply list_lookup_insert_eq; lia).
    rewrite take_insert_ge by lia.
    rewrite drop_insert_lt by lia.
    rewrite <- app_assoc. f_equal. cbn [seq map app].
    rewrite Nat.mul_0_r, Nat.add_0_r, <- Hr. f_equal.
    replace (S r + k)%nat with (r + S k)%nat by lia. f_equal.
    rewrite <- seq_shift, map_map. apply map_ext. intros j.
    f_equal. f_equal. lia.
Qed.

Lemma startGame_grid (m : GameMode) (s : State) :
  grid (startGame rnd str m s) =
    replicate (GRID_ROWS - INITIAL_ROWS) (replicate GRID_COLS None)
      ++ map (fun j => fst (generateRow rnd str (rng s + 2 * GRID_COLS * j)%nat))
             (seq 0 INITIAL_ROWS).
Proof.
  unfold startGame. rewrite fillRows_loop_spec by (vm_compute; lia).
  unfold generateTarget. cbn [grid fst].
  rewrite (drop_ge emptyGrid) by (vm_compute; lia). by rewrite app_nil_r.
Qed.

Lemma startGame_target (m : GameMode) (s : State) :
  target (startGame rnd str m s) =
    fst (generateTarget rnd (rng s + 2 * GRID_COLS * INITIAL_ROWS)%nat) /\
  rng (startGame rnd str m s) = (rng s + 49)%nat.
Proof.
  unfold startGame. rewrite fillRows_loop_spec by (vm_compute; lia).
  unfold generateTarget. cbn [target rng fst].
  split; [done|]. unfold GRID_COLS, INITIAL_ROWS. lia.
Qed.

(** X1. [startGame] builds the same board from any state: the first
    [GRID_ROWS - INITIAL_ROWS] rows are rows of [null], the last
    [INITIAL_ROWS] rows are generated one after the other from the next
    draws of [Math.random] (12 per row), and the target is drawn after
    them: 49 draws in all. *)
Theorem startGame_board (m : GameMode) (s : State) :
  grid (startGame rnd str m s) =
    replicate (GRID_ROWS - INITIAL_ROWS) (replicate GRID_COLS None)
      ++ map (fun j => fst (generateRow rnd str (rng s + 2 * GRID_COLS * j)%nat))
             (seq 0 INITIAL_ROWS) /\
  target (startGame rnd str m s) =
    fst (generateTarget rnd (rng s + 2 * GRID_COLS * INITIAL_ROWS)%nat) /\
  rng (startGame rnd str m s) = (rng s + 49)%nat.
Proof.
  split; [apply startGame_grid|apply startGame_target].
Qed.

(** ** What an event does to a state *)

Lemma step_inv (e : Event) (s s' : State) :
  invariant s -> step rnd str e s = Some s' ->
  exists s1, handle rnd str e s = Some s1 /\ s' = highScoreEffect s1 /\
    match e with
    | StartGame m => s1 = startGame rnd str m s
    | BlockClick r c =>
        exists b v,
          gameState s = playing /\ cellAt (grid s) r c = Some (Some b) /\
          sumSelected (grid s) (toggle (selected s) r c) = Some v /\
          (v < target s /\ s1 = set_selected (toggle (selected s) r c) s
           \/ v > target s /\ s1 = set_selected [] s
           \/ v = target s /\ handleBlockClick rnd r c s = Some s1)
    | ClearSelection => gameState s = playing /\ s1 = set_selected [] s
    | MainMenu => gameState s <> menu /\ s1 = set_gameState menu s
    | TimerTick =>
        gameState s = playing /\ mode s = time /\
        (1 < timeLeft s /\ s1 = set_timeLeft (timeLeft s - 1) s
         \/ timeLeft s <= 1 /\
            exists s2 row0 rest,
              grid s = row0 :: rest /\ addRow rnd str time s = Some s2 /\
              s1 = set_timeLeft TIME_MODE_SECONDS s2)
    | TimeoutFires =>
        timeouts s <> 0%nat /\
        exists row0 rest,
          grid s = row0 :: rest /\
          addRow rnd str classic (set_timeouts (pred (timeouts s)) s) = Some s1
    end.
Proof.
  intros Hinv Hstep. unfold step in Hstep.
  destruct (enabled e s) eqn:Hen; [|done].
  destruct (handle rnd str e s) as [s1|] eqn:Hh; [|done].
  injection Hstep as <-. exists s1. split; [done|]. split; [done|].
  destruct e as [m|r c| | | |]; simpl in Hh, Hen.
  - by injection Hh as <-.
  - apply (enabled_BlockClick r c s) in Hen as (Hp & b & Hb).
    destruct Hinv as (_ & Hrange & _).
    assert (r < length (grid s))%nat as Hr
      by (apply (cellAt_is_Some (grid s) r c); by eexists).
    pose proof (toggle_in_range _ _ r c Hr Hrange) as Hrange'.
    destruct (proj2 (sumSelected_in_range _ _) Hrange') as [v Hsum].
    exists b, v. split_and!; try done.
    destruct (Z.lt_trichotomy v (target s)) as [Hlt|[->|Hgt]].
    + left. rewrite (handleBlockClick_pending rnd r c s b v) in Hh by done.
      by injection Hh as <-.
    + right. right. done.
    + right. left.
      rewrite (handleBlockClick_overshoot rnd r c s b v) in Hh by (done || lia).
      injection Hh as <-. split; [lia|done].
  - apply bool_decide_eq_true in Hen. by injection Hh as <-.
  - apply negb_true_iff, bool_decide_eq_false in Hen. by injection Hh as <-.
  - apply andb_true_iff in Hen as [Hp%bool_decide_eq_true Hm%bool_decide_eq_true].
    split; [done|]. split; [done|]. unfold tick in Hh.
    destruct (Z.leb_spec (timeLeft s) 1) as [Hle|Hgt].
    + right. split; [done|].
      destruct (addRow rnd str time s) as [s2|] eqn:Hadd; [|done].
      injection Hh as <-.
      destruct (addRow_Some rnd str _ _ _ Hadd) as (row0 & rest & Hg).
      by exists s2, row0, rest.
    + left. injection Hh as <-. done.
  - apply negb_true_iff, Nat.eqb_neq in Hen. split; [done|].
    unfold fireTimeout in Hh.
    destruct (addRow_Some rnd str _ _ _ Hh) as (row0 & rest & Hg).
    exists row0, rest. split; [|done]. by destruct s.
Qed.

(** ** The shape of the board, the score, the game-over screen *)

Lemma removeCells_wellShaped (g : Grid) (sel : list Sel.t) :
  wellShaped g -> wellShaped (removeCells g sel).
Proof.
  intros [Hlen Hrows]. split; [by rewrite removeCells_length|].
  apply Forall_lookup. intros i row Hrow. unfold removeCells in Hrow.
  rewrite list_lookup_imap in Hrow.
  destruct (g !! i) as [row'|] eqn:Hi; [|done]. injection Hrow as <-.
  rewrite length_imap.
  exact (Forall_lookup_1 (fun row : Row => length row = GRID_COLS) g i row' Hrows Hi).
Qed.

Lemma shift_wellShaped (row0 row : Row) (rest : Grid) :
  wellShaped (row0 :: rest) -> length row = GRID_COLS ->
  wellShaped (rest ++ [row]).
Proof.
  intros [Hlen Hrows] Hrow. apply Forall_cons in Hrows as [_ Hrows].
  split.
  - rewrite length_app. simpl in *. lia.
  - apply Forall_app. split; [done|]. by constructor.
Qed.

Lemma startGame_wellShaped (m : GameMode) (s : State) :
  wellShaped (grid (startGame rnd str m s)).
Proof.
  rewrite startGame_grid. split.
  - by rewrite length_app, length_replicate, List.length_map, length_seq.
  - apply Forall_app. split.
    + apply Forall_replicate. by rewrite length_replicate.
    + apply Forall_forall. intros row Hin.
      apply list_elem_of_In, in_map_iff in Hin as (j & <- & _).
      apply generateRow_length.
Qed.

Lemma boardInvariant_effect (s1 : State) :
  (grid s1 = [] \/ wellShaped (grid s1)) -> (10 | score s1) ->
  (gameState s1 = gameover ->
   exists row0 rest b, grid s1 = row0 :: rest /\ Some b ∈ row0) ->
  boardInvariant (highScoreEffect s1).
Proof.
  intros Hshape Hdiv Hover. unfold boardInvariant.
  destruct (highScoreEffect_fields s1) as (-> & _ & -> & _ & _ & -> & _ & _ & _ & ->).
  split_and!; try done. lia.
Qed.

Lemma boardInvariant_initial : boardInvariant initialState.
Proof.
  unfold boardInvariant. simpl. split_and!; [by left|by exists 0|done|done].
Qed.

Lemma boardInvariant_step (e : Event) (s s' : State) :
  invariant s -> boardInvariant s ->
  step rnd str e s = Some s' -> boardInvariant s'.
Proof.
  intros Hinv (Hshape & Hdiv & Hle & Hover) Hstep.
  destruct (step_inv e s s' Hinv Hstep) as (s1 & Hh & -> & He).
  apply boardInvariant_effect; destruct e as [m|r c| | | |].
  - subst s1. right. apply startGame_wellShaped.
  - destruct He as (b & v & Hp & Hb & Hsum & [[_ ->]|[[_ ->]|[-> Hm]]]);
      [by destruct s..|].
    destruct (handleBlockClick_match rnd r c s b Hp Hb Hsum)
      as (s2 & Hm' & _ & _ & Hg2 & _).
    rewrite Hm in Hm'. injection Hm' as <-. rewrite Hg2.
    destruct Hshape as [Hnil|Hws]; [left|right].
    + rewrite Hnil. done.
    + by apply removeCells_wellShaped.
  - destruct He as [_ ->]. by destruct s.
  - destruct He as [_ ->]. by destruct s.
  - destruct He as (_ & _ & [[_ ->]|(_ & s2 & row0 & rest & Hg & Hadd & ->)]);
      [by destruct s|].
    destruct (addRow_cons rnd str time s row0 rest Hg)
      as (s3 & Hadd' & _ & _ & _ & _ & _ & _ & _ & _ & Hcases).
    rewrite Hadd in Hadd'. injection Hadd' as <-.
    replace (grid (set_timeLeft TIME_MODE_SECONDS s2)) with (grid s2)
      by (by destruct s2).
    destruct Hcases as [(_ & _ & ->)|(_ & _ & ->)]; [done|].
    right. destruct Hshape as [Hnil|Hws]; [by rewrite Hnil in Hg|].
    rewrite Hg in Hws. eapply shift_wellShaped; [done|].
    apply generateRow_length.
  - destruct He as (_ & row0 & rest & Hg & Hadd).
    destruct (addRow_cons rnd str classic (set_timeouts (pred (timeouts s)) s)
                row0 rest) as (s3 & Hadd' & _ & _ & _ & _ & _ & _ & _ & _ & Hcases);
      [by destruct s|].
    rewrite Hadd in Hadd'. injection Hadd' as <-.
    destruct Hcases as [(_ & _ & ->)|(_ & _ & ->)]; [by destruct s|].
    right. destruct Hshape as [Hnil|Hws]; [by rewrite Hnil in Hg|].
    rewrite Hg in Hws. eapply shift_wellShaped; [done|].
    apply generateRow_length.
  - subst s1. destruct (startGame_fields rnd str m s) as (_&_&_&->&_). by exists 0.
  - destruct He as (b & v & Hp & Hb & Hsum & [[_ ->]|[[_ ->]|[-> Hm]]]);
      [by destruct s..|].
    destruct (handleBlockClick_match rnd r c s b Hp Hb Hsum)
      as (s2 & Hm' & _ & _ & _ & _ & _ & _ & Hsc2 & _).
    rewrite Hm in Hm'. injection Hm' as <-. rewrite Hsc2.
    apply Z.divide_add_r; [done|]. apply Z.divide_factor_r.
  - destruct He as [_ ->]. by destruct s.
  - destruct He as [_ ->]. by destruct s.
  - destruct He as (_ & _ & [[_ ->]|(_ & s2 & row0 & rest & Hg & Hadd & ->)]);
      [by destruct s|].
    destruct (addRow_cons rnd str time s row0 rest Hg)
      as (s3 & Hadd' & _ & _ & _ & Hsc & _).
    rewrite Hadd in Hadd'. injection Hadd' as <-.
    replace (score (set_timeLeft TIME_MODE_SECONDS s2)) with (score s2)
      by (by destruct s2). by rewrite Hsc.
  - destruct He as (_ & row0 & rest & Hg & Hadd).
    destruct (addRow_cons rnd str classic (set_timeouts (pred (timeouts s)) s)
                row0 rest) as (s3 & Hadd' & _ & _ & _ & Hsc & _);
      [by destruct s|].
    rewrite Hadd in Hadd'. injection Hadd' as <-. rewrite Hsc. by destruct s.
  - subst s1. destruct (startGame_fields rnd str m s) as (->&_). done.
  - destruct He as (b & v & Hp & Hb & Hsum & [[_ ->]|[[_ ->]|[-> Hm]]]).
    + destruct s; simpl in *. congruence.
    + destruct s; simpl in *. congruence.
    + destruct (handleBlockClick_match rnd r c s b Hp Hb Hsum)
        as (s2 & Hm' & Hgs & _).
      rewrite Hm in Hm'. injection Hm' as <-. congruence.
  - destruct He as [Hp ->]. destruct s; simpl in *. congruence.
  - destruct He as [_ ->]. destruct s; simpl in *. congruence.
  - destruct He as (Hp & _ & [[_ ->]|(_ & s2 & row0 & rest & Hg & Hadd & ->)]).
    { destruct s; simpl in *. congruence. }
    destruct (addRow_cons rnd str time s row0 rest Hg)
      as (s3 & Hadd' & _ & _ & _ & _ & _ & _ & _ & _ & Hcases).
    rewrite Hadd in Hadd'. injection Hadd' as <-.
    replace (gameState (set_timeLeft TIME_MODE_SECONDS s2)) with (gameState s2)
      by (by destruct s2).
    replace (grid (set_timeLeft TIME_MODE_SECONDS s2)) with (grid s2)
      by (by destruct s2).
    destruct Hcases as [([b Hb] & _ & ->)|(_ & -> & _)]; [|congruence].
    intros _. by exists row0, rest, b.
  - destruct He as (_ & row0 & rest & Hg & Hadd).
    destruct (addRow_cons rnd str classic (set_timeouts (pred (timeouts s)) s)
                row0 rest) as (s3 & Hadd' & _ & _ & _ & _ & _ & _ & _ & _ & Hcases);
      [by destruct s|].
    rewrite Hadd in Hadd'. injection Hadd' as <-.
    destruct Hcases as [([b Hb] & _ & ->)|(Hnone & -> & _)].
    + intros _. exists row0, rest, b. split; [by destruct s|done].
    + intros Hgo. destruct Hover as (row0' & rest' & b & Hg' & Hb);
        [by destruct s|].
      rewrite Hg in Hg'. injection Hg' as <- <-.
      eapply Forall_forall in Hnone; [|exact Hb]. done.
Qed.

Lemma boardInvariant_reachable (s : State) :
  reachable rnd str s -> boardInvariant s.
Proof.
  induction 1 as [|e s s' Hreach IH Hstep]; [apply boardInvariant_initial|].
  eapply boardInvariant_step; [|exact IH|exact Hstep].
  by apply (invariant_reachable rnd str).
Qed.

(** ** The values of the blocks and the target *)

Section InRange.

Hypothesis rnd_unit : forall i, Number.unit_interval (rnd i) = true.

Lemma generateTarget_range (n : nat) :
  TARGET_MIN <= fst (generateTarget rnd n) <= TARGET_MAX.
Proof.
  unfold generateTarget. cbn [fst].
  pose proof (NumberFacts.floor_mul_target (rnd n) (rnd_unit n)). lia.
Qed.

Lemma generateRow_range (n : nat) (cell : Cell) :
  cell ∈ fst (generateRow rnd str n) ->
  exists b, cell = Some b /\ 1 <= value b <= 9.
Proof.
  intros (i & _ & ->)%generateRow_cells. eexists. split; [done|].
  unfold generateBlock. cbn [fst value].
  pose proof (NumberFacts.floor_mul_value _ (rnd_unit (S (n + 2 * i)))). lia.
Qed.

Lemma blocksInRange_removeCells (g : Grid) (sel : list Sel.t) :
  blocksInRange g -> blocksInRange (removeCells g sel).
Proof.
  intros Hg ri ci b Hb. rewrite removeCells_cellOf in Hb.
  case_decide; [|by eapply Hg].
  destruct (cellOf g ri ci); simpl in Hb; discriminate.
Qed.

Lemma blocksInRange_shift (row0 row : Row) (rest : Grid) :
  blocksInRange (row0 :: rest) ->
  (forall cell, cell ∈ row -> exists b, cell = Some b /\ 1 <= value b <= 9) ->
  blocksInRange (rest ++ [row]).
Proof.
  intros Hg Hrow ri ci b Hb. unfold cellOf in Hb.
  destruct (decide (ri < length rest)%nat) as [Hlt|Hge].
  - rewrite lookup_app_l in Hb by done. by apply (Hg (S ri) ci b).
  - rewrite lookup_app_r in Hb by lia.
    destruct (ri - length rest)%nat as [|k]; simpl in Hb; [|done].
    apply list_elem_of_lookup_2 in Hb.
    destruct (Hrow _ Hb) as (b' & [= <-] & Hv). done.
Qed.

Lemma blocksInRange_startGame (m : GameMode) (s : State) :
  blocksInRange (grid (startGame rnd str m s)).
Proof.
  rewrite startGame_grid. intros ri ci b Hb. unfold cellOf in Hb.
  destruct ((_ ++ _) !! ri) as [row|] eqn:Hrow; [|done]. simpl in Hb.
  apply list_elem_of_lookup_2 in Hrow, Hb.
  apply elem_of_app in Hrow as [Hrow|Hrow].
  - apply elem_of_replicate in Hrow as [-> _].
    apply elem_of_replicate in Hb as [Hb _]. discriminate.
  - apply list_elem_of_In, in_map_iff in Hrow as (j & <- & _).
    destruct (generateRow_range _ _ Hb) as (b' & [= <-] & Hv). done.
Qed.

Lemma rangeInvariant_initial : rangeInvariant initialState.
Proof.
  split.
  - intros ri ci b Hb. unfold cellOf in Hb. simpl in Hb. by destruct ri.
  - unfold started. simpl. discriminate.
Qed.

Lemma rangeInvariant_step (e : Event) (s s' : State) :
  invariant s -> rangeInvariant s ->
  step rnd str e s = Some s' -> rangeInvariant s'.
Proof.
  intros Hinv [Hblocks Htarget] Hstep.
  destruct (step_inv e s s' Hinv Hstep) as (s1 & Hh & -> & He).
  unfold rangeInvariant, started.
  destruct (highScoreEffect_fields s1) as (_ & _ & -> & -> & _).
  unfold started in Htarget.
  destruct e as [m|r c| | | |].
  - subst s1. split; [apply blocksInRange_startGame|]. intros _.
    destruct (startGame_target m s) as [-> _]. apply generateTarget_range.
  - destruct He as (b & v & Hp & Hb & Hsum & [[_ ->]|[[_ ->]|[-> Hm]]]);
      [by destruct s..|].
    destruct (handleBlockClick_match rnd r c s b Hp Hb Hsum)
      as (s2 & Hm' & _ & _ & Hg2 & Ht2 & _).
    rewrite Hm in Hm'. injection Hm' as <-. rewrite Hg2, Ht2.
    split; [by apply blocksInRange_removeCells|]. intros _.
    apply generateTarget_range.
  - destruct He as [_ ->]. by destruct s.
  - destruct He as [_ ->]. by destruct s.
  - destruct He as (_ & _ & [[_ ->]|(_ & s2 & row0 & rest & Hg & Hadd & ->)]);
      [by destruct s|].
    destruct (addRow_cons rnd str time s row0 rest Hg)
      as (s3 & Hadd' & _ & Ht & _ & _ & _ & _ & _ & _ & Hcases).
    rewrite Hadd in Hadd'. injection Hadd' as <-.
    replace (grid (set_timeLeft TIME_MODE_SECONDS s2)) with (grid s2)
      by (by destruct s2).
    replace (target (set_timeLeft TIME_MODE_SECONDS s2)) with (target s2)
      by (by destruct s2).
    rewrite Ht. destruct Hcases as [(_ & _ & ->)|(_ & _ & ->)]; [done|].
    split.
    + rewrite Hg in Hblocks. eapply blocksInRange_shift; [done|].
      apply generateRow_range.
    + intros Hlen. apply Htarget. rewrite Hg.
      rewrite length_app in Hlen. simpl in *. lia.
  - destruct He as (_ & row0 & rest & Hg & Hadd).
    destruct (addRow_cons rnd str classic (set_timeouts (pred (timeouts s)) s)
                row0 rest) as (s3 & Hadd' & _ & Ht & _ & _ & _ & _ & _ & _ & Hcases);
      [by destruct s|].
    rewrite Hadd in Hadd'. injection Hadd' as <-. rewrite Ht.
    replace (target (set_timeouts (pred (timeouts s)) s)) with (target s)
      by (by destruct s).
    destruct Hcases as [(_ & _ & ->)|(_ & _ & ->)]; [by destruct s|].
    split.
    + rewrite Hg in Hblocks. eapply blocksInRange_shift; [done|].
      apply generateRow_range.
    + intros Hlen. apply Htarget. rewrite Hg.
      rewrite length_app in Hlen. simpl in *. lia.
Qed.

Lemma rangeInvariant_reachable (s : State) :
  reachable rnd str s -> rangeInvariant s.
Proof.
  induction 1 as [|e s s' Hreach IH Hstep]; [apply rangeInvariant_initial|].
  eapply rangeInvariant_step; [|exact IH|exact Hstep].
  by apply (invariant_reachable rnd str).
Qed.

End InRange.

(** ** Properties of the reachable states *)

(** X2. The board keeps its dimensions: in every reachable state the grid
    has [GRID_ROWS] rows of [GRID_COLS] cells, except before the first
    round, where it is the empty array of the first render (on the menu,
    with no deferred callback pending). *)
Theorem board_shape (s : State) :
  reachable rnd str s ->
  wellShaped (grid s) \/
  (grid s = [] /\ gameState s = menu /\ timeouts s = 0%nat).
Proof.
  intros Hreach.
  destruct (invariant_reachable rnd str s Hreach) as (_ & _ & _ & _ & Hst).
  destruct (boardInvariant_reachable s Hreach) as (Hshape & _).
  destruct Hst as [Hst|(? & ? & ?)]; [|by right].
  destruct Hshape as [Hnil|?]; [|by left].
  unfold started in Hst. rewrite Hnil in Hst. discriminate.
Qed.

(** X3. No handler faults: in a reachable state every event that can
    happen (a button that is rendered, the interval while it exists, a
    pending deferred callback) is handled without a [TypeError]. *)
Theorem enabled_never_faults (e : Event) (s : State) :
  reachable rnd str s -> enabled e s = true ->
  is_Some (step rnd str e s).
Proof.
  intros Hreach Hen.
  destruct (invariant_reachable rnd str s Hreach) as (_ & Hrange & _ & _ & Hst).
  unfold step. rewrite Hen.
  assert (forall m s0, grid s0 = grid s -> started s ->
            is_Some (addRow rnd str m s0)) as Hadd.
  { intros m s0 Hg Hs. unfold started in Hs.
    destruct (grid s) as [|row0 rest] eqn:Hgs; [done|].
    destruct (addRow_cons rnd str m s0 row0 rest Hg) as (s1 & -> & _).
    by eexists. }
  destruct e as [m|r c| | | |]; simpl in *; try (by eexists).
  - apply (enabled_BlockClick r c s) in Hen as (Hp & b & Hb).
    assert (r < length (grid s))%nat as Hr
      by (apply (cellAt_is_Some (grid s) r c); by eexists).
    pose proof (toggle_in_range _ _ r c Hr Hrange) as Hrange'.
    destruct (proj2 (sumSelected_in_range _ _) Hrange') as [v Hsum].
    destruct (Z.lt_trichotomy v (target s)) as [Hlt|[->|Hgt]].
    + rewrite (handleBlockClick_pending rnd r c s b v) by done. by eexists.
    + destruct (handleBlockClick_match rnd r c s b Hp Hb Hsum) as (s1 & -> & _).
      by eexists.
    + rewrite (handleBlockClick_overshoot rnd r c s b v) by (done || lia).
      by eexists.
  - apply andb_true_iff in Hen as [Hp%bool_decide_eq_true _].
    unfold tick. destruct (timeLeft s <=? 1); [|by eexists].
    destruct (Hadd time s) as [s1 ->]; [done| |by eexists].
    destruct Hst as [?|(? & _)]; [done|congruence].
  - apply negb_true_iff, Nat.eqb_neq in Hen. unfold fireTimeout.
    destruct (Hadd classic (set_timeouts (pred (timeouts s)) s)) as [s1 ->];
      [by destruct s| |by eexists].
    destruct Hst as [?|(_ & ? & _)]; [done|congruence].
Qed.

(** X6. The game-over screen is frozen: from a reachable state in phase
    [gameover], "try again" starts a round; every other event that can
    happen leaves board, score, target and selection as they are, "main
    menu" going to the menu and a late deferred callback staying on the
    game-over screen. *)
Theorem gameover_frozen (e : Event) (s s' : State) :
  reachable rnd str s -> gameState s = gameover ->
  step rnd str e s = Some s' ->
  (e = StartGame (mode s) /\ gameState s' = playing /\ score s' = 0)
  \/
  (grid s' = grid s /\ score s' = score s /\ target s' = target s /\
   selected s' = selected s /\ highScore s' = highScore s /\
   (e = MainMenu /\ gameState s' = menu \/
    e = TimeoutFires /\ gameState s' = gameover)).
Proof.
  intros Hreach Hgo Hstep.
  pose proof (invariant_reachable rnd str s Hreach) as Hinv.
  destruct (boardInvariant_reachable s Hreach) as (_ & _ & Hle & Hover).
  assert (enabled e s = true) as Hen
    by (unfold step in Hstep; by destruct (enabled e s)).
  destruct (step_inv e s s' Hinv Hstep) as (s1 & Hh & -> & He).
  destruct (highScoreEffect_fields s1)
    as (-> & _ & -> & -> & -> & -> & _ & _ & _ & ->).
  destruct e as [m|r c| | | |].
  - left. subst s1. simpl in Hen. rewrite Hgo in Hen. simpl in Hen.
    apply bool_decide_eq_true in Hen as ->.
    destruct (startGame_fields rnd str (mode s) s) as (-> & _ & _ & -> & _).
    done.
  - destruct He as (_ & _ & Hp & _). congruence.
  - destruct He as (Hp & _). congruence.
  - right. destruct He as [_ ->]. destruct s; simpl in *.
    split_and!; try done; [lia|by left].
  - destruct He as (Hp & _). congruence.
  - right. destruct He as (_ & row0 & rest & Hg & Hadd).
    destruct (addRow_cons rnd str classic (set_timeouts (pred (timeouts s)) s)
                row0 rest) as (s3 & Hadd' & _ & Ht & Hsel & Hsc & Hhs & _ & _ & _ & Hcases);
      [by destruct s|].
    rewrite Hadd in Hadd'. injection Hadd' as <-.
    rewrite Ht, Hsel, Hsc, Hhs.
    destruct Hcases as [(_ & -> & ->)|(Hnone & _ & _)].
    + destruct s; simpl in *. split_and!; try done; [lia|by right].
    + destruct (Hover Hgo) as (row0' & rest' & b & Hg' & Hb).
      rewrite Hg in Hg'. injection Hg' as <- <-.
      eapply Forall_forall in Hnone; [|exact Hb]. done.
Qed.

(** X7. The phases change in four ways only: [startGame] enters
    [playing]; the back arrow and "main menu" enter [menu]; a call of
    [addRow] (by the interval or by a deferred callback) may enter
    [gameover], from whatever phase the callback finds; every other event
    leaves the phase as it is. *)
Theorem phase_transitions (e : Event) (s s' : State) :
  reachable rnd str s -> step rnd str e s = Some s' ->
  match e with
  | StartGame _ => gameState s <> playing /\ gameState s' = playing
  | BlockClick _ _ | ClearSelection =>
      gameState s = playing /\ gameState s' = playing
  | MainMenu => gameState s <> menu /\ gameState s' = menu
  | TimerTick =>
      gameState s = playing /\
      (gameState s' = playing \/ timeLeft s = 1 /\ gameState s' = gameover)
  | TimeoutFires => gameState s' = gameState s \/ gameState s' = gameover
  end.
Proof.
  intros Hreach Hstep.
  pose proof (invariant_reachable rnd str s Hreach) as Hinv.
  assert (enabled e s = true) as Hen
    by (unfold step in Hstep; by destruct (enabled e s)).
  destruct (step_inv e s s' Hinv Hstep) as (s1 & Hh & -> & He).
  destruct (highScoreEffect_fields s1) as (-> & _).
  destruct e as [m|r c| | | |].
  - subst s1. destruct (startGame_fields rnd str m s) as (-> & _).
    split; [|done]. simpl in Hen. intros Hp. rewrite Hp in Hen. done.
  - destruct He as (b & v & Hp & Hb & Hsum & [[_ ->]|[[_ ->]|[-> Hm]]]);
      [by destruct s..|].
    destruct (handleBlockClick_match rnd r c s b Hp Hb Hsum)
      as (s2 & Hm' & Hgs & _).
    rewrite Hm in Hm'. by injection Hm' as <-.
  - destruct He as [Hp ->]. by destruct s.
  - destruct He as [Hp ->]. by destruct s.
  - destruct He as (Hp & _ & [[_ ->]|(Hle & s2 & row0 & rest & Hg & Hadd & ->)]).
    { split; [done|]. left. by destruct s. }
    split; [done|].
    destruct (addRow_cons rnd str time s row0 rest Hg)
      as (s3 & Hadd' & _ & _ & _ & _ & _ & _ & _ & _ & Hcases).
    rewrite Hadd in Hadd'. injection Hadd' as <-.
    replace (gameState (set_timeLeft TIME_MODE_SECONDS s2)) with (gameState s2)
      by (by destruct s2).
    destruct Hinv as (_ & _ & Htl & _).
    destruct Hcases as [(_ & -> & _)|(_ & -> & _)]; [right|by left].
    split; [lia|done].
  - destruct He as (_ & row0 & rest & Hg & Hadd).
    destruct (addRow_cons rnd str classic (set_timeouts (pred (timeouts s)) s)
                row0 rest) as (s3 & Hadd' & _ & _ & _ & _ & _ & _ & _ & _ & Hcases);
      [by destruct s|].
    rewrite Hadd in Hadd'. injection Hadd' as <-.
    destruct Hcases as [(_ & -> & _)|(_ & -> & _)]; [by right|left].
    by destruct s.
Qed.

(** X10. [addRow] faults exactly on the grid of the first render: it
    raises a [TypeError] (reading [currentGrid[0].some]) if and only if
    the grid has no row. *)
Theorem addRow_faults_iff (m : GameMode) (s : State) :
  addRow rnd str m s = None <-> grid s = [].
Proof.
  split.
  - intros Hnone. destruct (grid s) as [|row0 rest] eqn:Hg; [done|].
    destruct (addRow_cons rnd str m s row0 rest Hg) as (s' & Hadd & _).
    congruence.
  - intros Hnil. destruct (addRow rnd str m s) as [s'|] eqn:Hadd; [|done].
    destruct (addRow_Some rnd str m s s' Hadd) as (row0 & rest & Hg). congruence.
Qed.

(** X11. The effect on [score] and [highScore] settles after one run:
    running it again (as React does, [highScore] being one of its
    dependencies) changes nothing, and afterwards [highScore] is at least
    [score]. *)
Theorem highScoreEffect_settles (s : State) :
  highScoreEffect (highScoreEffect s) = highScoreEffect s /\
  score (highScoreEffect s) <= highScore (highScoreEffect s).
Proof.
  unfold highScoreEffect.
  destruct (Z.gtb_spec (score s) (highScore s)) as [Hgt|Hle].
  - destruct s; simpl in *.
    destruct (Z.gtb_spec score0 score0); [lia|]. split; [done|lia].
  - destruct (Z.gtb_spec (score s) (highScore s)); [lia|]. done.
Qed.

(** ** With [Math.random] in its range *)

Lemma sum_cellValue_le (g : Grid) (sel : list Sel.t) :
  blocksInRange g ->
  0 <= foldr (fun x acc =>
                valueOr0 (default None (cellOf g (Sel.r x) (Sel.c x))) + acc) 0 sel
    <= 9 * Z.of_nat (length sel).
Proof.
  intros Hg. induction sel as [|x sel IH]; [simpl; lia|].
  cbn [foldr length]. rewrite Nat2Z.inj_succ.
  assert (0 <= valueOr0 (default None (cellOf g (Sel.r x) (Sel.c x))) <= 9); [|lia].
  destruct (cellOf g (Sel.r x) (Sel.c x)) as [[b|]|] eqn:Hb; simpl; [|lia..].
  pose proof (Hg _ _ _ Hb). destruct (value b =? 0); lia.
Qed.

Section InRangeProperties.

Hypothesis rnd_unit : forall i, Number.unit_interval (rnd i) = true.

(** X4. With [Math.random] in its range, in every reachable state every
    block of the board has a value between 1 and 9, and once a round has
    been started the target lies between [TARGET_MIN] and [TARGET_MAX],
    in particular while playing. *)
Theorem blocks_and_target_in_range (s : State) :
  reachable rnd str s ->
  blocksInRange (grid s) /\
  (gameState s <> menu -> TARGET_MIN <= target s <= TARGET_MAX).
Proof.
  intros Hreach.
  destruct (rangeInvariant_reachable rnd_unit s Hreach) as [Hblocks Htarget].
  split; [done|]. intros Hmenu. apply Htarget.
  destruct (invariant_reachable rnd str s Hreach) as (_ & _ & _ & _ & Hst).
  destruct Hst as [?|(? & _)]; [done|congruence].
Qed.

(** X5. With [Math.random] in its range, the score is a multiple of 10,
    and an event either leaves it as it is, or is [startGame] and sets it
    to 0, or is a click that matches and adds 10 points for each of the at
    least two selected coordinates. *)
Theorem score_steps (e : Event) (s s' : State) :
  reachable rnd str s -> step rnd str e s = Some s' ->
  (10 | score s) /\ 0 <= score s /\
  (score s' = score s
   \/ (exists m, e = StartGame m) /\ score s' = 0
   \/ (exists r c k, e = BlockClick r c /\ (2 <= k)%nat /\
         k = length (toggle (selected s) r c) /\
         score s' = score s + 10 * Z.of_nat k)).
Proof.
  intros Hreach Hstep.
  pose proof (invariant_reachable rnd str s Hreach) as Hinv.
  destruct (boardInvariant_reachable s Hreach) as (_ & Hdiv & _).
  destruct (rangeInvariant_reachable rnd_unit s Hreach) as [Hblocks Htarget].
  split; [done|]. split; [by destruct Hinv as (_ & _ & _ & ? & _)|].
  destruct (step_inv e s s' Hinv Hstep) as (s1 & Hh & -> & He).
  destruct (highScoreEffect_fields s1) as (_ & _ & _ & _ & _ & -> & _).
  destruct e as [m|r c| | | |].
  - right. left. subst s1. split; [by eexists|].
    by destruct (startGame_fields rnd str m s) as (_ & _ & _ & -> & _).
  - destruct He as (b & v & Hp & Hb & Hsum & [[_ ->]|[[_ ->]|[-> Hm]]]);
      [left; by destruct s..|].
    right. right. exists r, c, (length (toggle (selected s) r c)).
    destruct (handleBlockClick_match rnd r c s b Hp Hb Hsum)
      as (s2 & Hm' & _ & _ & _ & _ & _ & _ & Hsc & _).
    rewrite Hm in Hm'. injection Hm' as <-.
    split_and!; [done| |done|lia].
    assert (Forall (fun x => (Sel.r x < length (grid s))%nat)
                   (toggle (selected s) r c)) as Hrange
      by (apply sumSelected_in_range; by eexists).
    unfold sumSelected in Hsum. rewrite sumSelected_acc in Hsum by done.
    injection Hsum as Hsum.
    pose proof (sum_cellValue_le (grid s) (toggle (selected s) r c) Hblocks).
    assert (TARGET_MIN <= target s) as Ht.
    { apply Htarget. destruct Hinv as (_ & _ & _ & _ & [?|(? & _)]);
        [done|congruence]. }
    unfold TARGET_MIN in Ht. lia.
  - left. destruct He as [_ ->]. by destruct s.
  - left. destruct He as [_ ->]. by destruct s.
  - left. destruct He as (_ & _ & [[_ ->]|(_ & s2 & row0 & rest & Hg & Hadd & ->)]);
      [by destruct s|].
    destruct (addRow_cons rnd str time s row0 rest Hg)
      as (s3 & Hadd' & _ & _ & _ & Hsc & _).
    rewrite Hadd in Hadd'. injection Hadd' as <-. rewrite <- Hsc.
    by destruct s2.
  - left. destruct He as (_ & row0 & rest & Hg & Hadd).
    destruct (addRow_cons rnd str classic (set_timeouts (pred (timeouts s)) s)
                row0 rest) as (s3 & Hadd' & _ & _ & _ & Hsc & _);
      [by destruct s|].
    rewrite Hadd in Hadd'. injection Hadd' as <-. rewrite Hsc. by destruct s.
Qed.

End InRangeProperties.

(** ** How long a round lasts at least *)

Lemma topEmpty_lookup (j : nat) (g : Grid) :
  topEmpty j g <->
  forall i row, (i < j)%nat -> g !! i = Some row -> emptyRow row.
Proof.
  unfold topEmpty. rewrite Forall_lookup. split.
  - intros H i row Hi Hrow. apply (H i row). by rewrite lookup_take_lt.
  - intros H i row Hrow. apply lookup_take_Some in Hrow as [Hrow Hi].
    by apply (H i row).
Qed.

Lemma topEmpty_le (j j' : nat) (g : Grid) :
  (j' <= j)%nat -> topEmpty j g -> topEmpty j' g.
Proof.
  rewrite !topEmpty_lookup. intros Hle H i row Hi. apply H. lia.
Qed.

Lemma topEmpty_startGame (m : GameMode) (s : State) :
  topEmpty (GRID_ROWS - INITIAL_ROWS) (grid (startGame rnd str m s)).
Proof.
  rewrite startGame_grid. unfold topEmpty.
  rewrite take_app_le by (by rewrite length_replicate).
  rewrite take_replicate. apply Forall_replicate, Forall_replicate. done.
Qed.

Lemma topEmpty_removeCells (j : nat) (g : Grid) (sel : list Sel.t) :
  topEmpty j g -> topEmpty j (removeCells g sel).
Proof.
  rewrite !topEmpty_lookup. intros H i row Hi Hrow.
  unfold removeCells in Hrow. rewrite list_lookup_imap in Hrow.
  destruct (g !! i) as [row'|] eqn:Hg; [|done]. injection Hrow as <-.
  specialize (H i row' Hi Hg). unfold emptyRow in *.
  apply Forall_lookup. intros ci cell Hcell.
  rewrite list_lookup_imap in Hcell.
  destruct (row' !! ci) as [cell'|] eqn:Hc; [|done]. injection Hcell as <-.
  destruct (isSelected sel i ci); [done|].
  exact (Forall_lookup_1 (fun cell : Cell => cell = None) row' ci cell' H Hc).
Qed.

Lemma topEmpty_shift (j : nat) (row0 row : Row) (rest : Grid) :
  topEmpty (S j) (row0 :: rest) -> (j <= length rest)%nat ->
  emptyRow row0 /\ topEmpty j (rest ++ [row]).
Proof.
  unfold topEmpty. simpl. intros [H0 Hrest]%Forall_cons Hj.
  split; [done|]. by rewrite take_app_le.
Qed.

(** While the top of the board is empty no event ends the round, and a
    tick or a deferred callback uncovers at most one row of it. *)
Lemma step_topEmpty (e : Event) (s s' : State) (j : nat) :
  reachable rnd str s -> gameState s <> gameover ->
  topEmpty j (grid s) -> (j <= GRID_ROWS - INITIAL_ROWS)%nat ->
  (timerEvents [e] <= j)%nat ->
  step rnd str e s = Some s' ->
  gameState s' <> gameover /\ topEmpty (j - timerEvents [e]) (grid s').
Proof.
  intros Hreach Hgo Htop Hj6 Hje Hstep.
  pose proof (invariant_reachable rnd str s Hreach) as Hinv.
  destruct (step_inv e s s' Hinv Hstep) as (s1 & Hh & -> & He).
  destruct (highScoreEffect_fields s1) as (-> & _ & -> & _).
  assert (forall m s0 s2,
            grid s0 = grid s -> gameState s0 = gameState s ->
            (1 <= j)%nat ->
            addRow rnd str m s0 = Some s2 ->
            gameState s2 <> gameover /\ topEmpty (j - 1) (grid s2)) as Hadd.
  { intros m s0 s2 Hg0 Hgs0 Hj1 Hadd.
    destruct (addRow_Some rnd str m s0 s2 Hadd) as (row0 & rest & Hg).
    destruct (addRow_cons rnd str m s0 row0 rest Hg)
      as (s3 & Hadd' & _ & _ & _ & _ & _ & _ & _ & _ & Hcases).
    rewrite Hadd in Hadd'. injection Hadd' as <-.
    rewrite Hg0 in Hg. rewrite Hg in Htop.
    destruct Hinv as (_ & _ & _ & _ & Hst).
    assert (length rest = 9%nat) as Hlen.
    { destruct Hst as [Hst|(_ & _ & Hnil)]; [|congruence].
      unfold started in Hst. rewrite Hg in Hst. simpl in Hst.
      unfold GRID_ROWS in Hst. lia. }
    destruct j as [|j]; [lia|].
    destruct (topEmpty_shift j row0 (fst (generateRow rnd str (rng s0))) rest Htop)
      as [Hrow0 Hrest]; [unfold GRID_ROWS, INITIAL_ROWS in Hj6; lia|].
    destruct Hcases as [([b Hb] & _ & _)|(_ & -> & ->)].
    - eapply Forall_forall in Hrow0; [|exact Hb]. done.
    - rewrite Hgs0. split; [done|]. by replace (S j - 1)%nat with j by lia. }
  destruct e as [m|r c| | | |]; cbn [timerEvents List.filter length] in *.
  - subst s1. destruct (startGame_fields rnd str m s) as (-> & _).
    split; [done|]. rewrite Nat.sub_0_r.
    eapply topEmpty_le; [exact Hj6|]. apply topEmpty_startGame.
  - rewrite Nat.sub_0_r.
    destruct He as (b & v & Hp & Hb & Hsum & [[_ ->]|[[_ ->]|[-> Hm]]]);
      [by destruct s..|].
    destruct (handleBlockClick_match rnd r c s b Hp Hb Hsum)
      as (s2 & Hm' & Hgs & _ & Hg2 & _).
    rewrite Hm in Hm'. injection Hm' as <-. rewrite Hgs, Hg2.
    split; [done|]. by apply topEmpty_removeCells.
  - rewrite Nat.sub_0_r. destruct He as [_ ->]. by destruct s.
  - rewrite Nat.sub_0_r. destruct He as [_ ->]. by destruct s.
  - destruct He as (_ & _ & [[_ ->]|(_ & s2 & row0 & rest & Hg & Hadd' & ->)]).
    + replace (gameState (set_timeLeft (timeLeft s - 1) s)) with (gameState s)
        by (by destruct s).
      replace (grid (set_timeLeft (timeLeft s - 1) s)) with (grid s)
        by (by destruct s).
      split; [done|]. eapply topEmpty_le; [|exact Htop]. lia.
    + replace (gameState (set_timeLeft TIME_MODE_SECONDS s2)) with (gameState s2)
        by (by destruct s2).
      replace (grid (set_timeLeft TIME_MODE_SECONDS s2)) with (grid s2)
        by (by destruct s2).
      by apply (Hadd time s s2).
  - destruct He as (_ & row0 & rest & Hg & Hadd').
    apply (Hadd classic (set_timeouts (pred (timeouts s)) s) s1);
      [by destruct s|by destruct s|done|done].
Qed.

Lemma timerEvents_cons (e : Event) (es : list Event) :
  timerEvents (e :: es) = (timerEvents [e] + timerEvents es)%nat.
Proof. unfold timerEvents. simpl. by destruct e. Qed.

Lemma run_topEmpty (es : list Event) (s s' : State) (j : nat) :
  reachable rnd str s -> gameState s <> gameover ->
  topEmpty j (grid s) -> (j <= GRID_ROWS - INITIAL_ROWS)%nat ->
  (timerEvents es <= j)%nat ->
  run rnd str es s = Some s' ->
  gameState s' <> gameover.
Proof.
  revert s j. induction es as [|e es IH]; intros s j Hreach Hgo Htop Hj6 Hje Hrun.
  - by injection Hrun as <-.
  - simpl in Hrun. destruct (step rnd str e s) as [s1|] eqn:Hstep; [|done].
    simpl in Hrun. rewrite timerEvents_cons in Hje.
    destruct (step_topEmpty e s s1 j Hreach Hgo Htop Hj6 ltac:(lia) Hstep)
      as [Hgo1 Htop1].
    eapply (IH s1 (j - timerEvents [e])%nat); try done; [|lia..].
    by eapply reachable_step.
Qed.

(** X8. A new round cannot be lost early: after [startGame], as long as
    the interval and the deferred callbacks (those of an earlier round
    included) have run at most [GRID_ROWS - INITIAL_ROWS] (6) times in
    all, the phase is never [gameover], whatever else happens. *)
Theorem fresh_round_survives (m : GameMode) (es : list Event) (s s' : State) :
  reachable rnd str s ->
  (timerEvents es <= GRID_ROWS - INITIAL_ROWS)%nat ->
  run rnd str (StartGame m :: es) s = Some s' ->
  gameState s' <> gameover.
Proof.
  intros Hreach Hes Hrun. simpl in Hrun.
  destruct (step rnd str (StartGame m) s) as [s1|] eqn:Hstep; [|done].
  simpl in Hrun.
  pose proof (invariant_reachable rnd str s Hreach) as Hinv.
  destruct (step_inv _ s s1 Hinv Hstep) as (s2 & _ & -> & ->).
  apply (run_topEmpty es (highScoreEffect (startGame rnd str m s)) s'
           (GRID_ROWS - INITIAL_ROWS)%nat); [| | |done|done|done].
  - by eapply reachable_step.
  - destruct (highScoreEffect_fields (startGame rnd str m s)) as (-> & _).
    by destruct (startGame_fields rnd str m s) as (-> & _).
  - destruct (highScoreEffect_fields (startGame rnd str m s)) as (_ & _ & -> & _).
    apply topEmpty_startGame.
Qed.

(** ** The sum of a selection *)

Lemma sumSelected_cellValue (g : Grid) (sel : list Sel.t) :
  Forall (fun x => (Sel.r x < length g)%nat) sel ->
  sumSelected g sel = Some (foldr (fun x acc => cellValue g x + acc) 0 sel).
Proof.
  intros Hrange. unfold sumSelected. rewrite sumSelected_acc by done.
  by rewrite Z.add_0_l.
Qed.

Lemma sum_permutation (g : Grid) (sel sel' : list Sel.t) :
  sel ≡ₚ sel' ->
  foldr (fun x acc => cellValue g x + acc) 0 sel =
  foldr (fun x acc => cellValue g x + acc) 0 sel'.
Proof.
  induction 1 as [|x l l' _ IH|x y l|l l' l'' _ IH1 _ IH2]; simpl; lia.
Qed.

(** X9. The sum does not depend on the order of the selection: two
    selections with the same coordinates in any order have the same sum,
    or both fault. *)
Theorem sumSelected_order (g : Grid) (sel sel' : list Sel.t) :
  sel ≡ₚ sel' -> sumSelected g sel = sumSelected g sel'.
Proof.
  intros Hperm.
  destruct (decide (Forall (fun x => (Sel.r x < length g)%nat) sel)) as [Hr|Hr].
  - rewrite !sumSelected_cellValue by (by rewrite <- ?Hperm).
    f_equal. by apply sum_permutation.
  - assert (~ Forall (fun x => (Sel.r x < length g)%nat) sel') as Hr'
      by (by rewrite <- Hperm).
    rewrite <- sumSelected_in_range in Hr, Hr'.
    destruct (sumSelected g sel), (sumSelected g sel'); try done.
    + exfalso. apply Hr. by eexists.
    + exfalso. apply Hr. by eexists.
    + exfalso. apply Hr'. by eexists.
Qed.

Lemma sum_removed (g : Grid) (sel : list Sel.t) (r c : nat) :
  NoDup sel -> Sel.mk r c ∈ sel ->
  foldr (fun x acc => cellValue g x + acc) 0
        (List.filter (fun s => negb (Sel.at_ r c s)) sel) =
  foldr (fun x acc => cellValue g x + acc) 0 sel - cellValue g (Sel.mk r c).
Proof.
  induction 1 as [|x sel Hx Hnd IH]; intros Hin; [by apply elem_of_nil in Hin|].
  simpl. rewrite at_eq. case_bool_decide as Heq; simpl.
  - subst x. rewrite removed_id by done. lia.
  - apply elem_of_cons in Hin as [Hin|Hin]; [congruence|].
    rewrite IH by done. lia.
Qed.

(** X12. A click moves the sum by the value of the clicked cell: for a
    selection without duplicates, toggling a coordinate of an existing row
    adds the value at that coordinate to the sum if it was not selected,
    and takes it off if it was. *)
Theorem sumSelected_toggle (g : Grid) (sel : list Sel.t) (r c : nat) (v : Z) :
  NoDup sel -> (r < length g)%nat -> sumSelected g sel = Some v ->
  sumSelected g (toggle sel r c) =
    Some (if isSelected sel r c
          then v - cellValue g (Sel.mk r c)
          else v + cellValue g (Sel.mk r c)).
Proof.
  intros Hnd Hr Hsum.
  assert (Forall (fun x => (Sel.r x < length g)%nat) sel) as Hrange
    by (apply sumSelected_in_range; by eexists).
  rewrite sumSelected_cellValue in Hsum by done. injection Hsum as <-.
  rewrite sumSelected_cellValue by (by apply toggle_in_range).
  f_equal. destruct (isSelected sel r c) eqn:Hsel.
  - apply isSelected_elem in Hsel. rewrite toggle_in by done.
    by apply sum_removed.
  - apply isSelected_false in Hsel. rewrite toggle_notin by done.
    rewrite foldr_app. simpl.
    generalize (cellValue g (Sel.mk r c)). intros a.
    induction sel as [|x sel IH]; simpl; [lia|].
    apply Forall_cons in Hrange as [_ Hrange].
    apply NoDup_cons in Hnd as [_ Hnd].
    apply not_elem_of_cons in Hsel as [_ Hsel].
    rewrite IH by done. lia.
Qed.

(** ** removeCells *)

Lemma isSelected_app (a b : list Sel.t) (ri ci : nat) :
  isSelected (a ++ b) ri ci = isSelected a ri ci || isSelected b ri ci.
Proof. unfold isSelected. apply existsb_app. Qed.

(** X13. Removing cells composes: removing the coordinates of one list
    and then those of another is removing those of both at once, removing
    none changes nothing, and removing the same coordinates again changes
    nothing. *)
Theorem removeCells_compose (g : Grid) (a b : list Sel.t) :
  removeCells (removeCells g a) b = removeCells g (a ++ b) /\
  removeCells g [] = g /\
  removeCells (removeCells g a) a = removeCells g a.
Proof.
  assert (forall a b, removeCells (removeCells g a) b = removeCells g (a ++ b))
    as Hcomp.
  { intros a' b'. unfold removeCells. apply list_eq. intros ri.
    rewrite !list_lookup_imap. destruct (g !! ri) as [row|]; [|done]. simpl.
    f_equal. apply list_eq. intros ci. rewrite !list_lookup_imap.
    destruct (row !! ci) as [cell|]; [|done]. simpl. f_equal.
    rewrite isSelected_app.
    by destruct (isSelected a' ri ci), (isSelected b' ri ci). }
  assert (forall a, removeCells (removeCells g a) a = removeCells g a) as Hidem.
  { intros a'. unfold removeCells. apply list_eq. intros ri.
    rewrite !list_lookup_imap. destruct (g !! ri) as [row|]; [|done]. simpl.
    f_equal. apply list_eq. intros ci. rewrite !list_lookup_imap.
    destruct (row !! ci) as [cell|]; [|done]. simpl. f_equal.
    by destruct (isSelected a' ri ci). }
  split_and!; [apply Hcomp| |apply Hidem].
  unfold removeCells. apply list_eq. intros ri.
  rewrite list_lookup_imap. destruct (g !! ri) as [row|]; [|done]. simpl.
  f_equal. apply list_eq. intros ci. rewrite list_lookup_imap.
  by destruct (row !! ci).
Qed.

(** ** generateRow in closed form *)

(** X14. A generated row, in closed form: its cell [j] is a new block
    whose id comes from draw [n + 2j] of [Math.random] and whose value
    comes from draw [n + 2j + 1]; the row spends [2 * GRID_COLS] draws, no
    draw serving twice. *)
Theorem generateRow_blocks (n : nat) :
  generateRow rnd str n =
    (map (fun j =>
            Some {| id := str (rnd (n + 2 * j)%nat);
                    value := Number.floor
                               (Number.mul (rnd (n + 2 * j + 1)%nat) (Number.of_Z 9))
                             + 1;
                    isNew := true |})
         (seq 0 GRID_COLS),
     (n + 2 * GRID_COLS)%nat).
Proof.
  unfold generateRow. rewrite generateRow_loop_spec. cbn [app]. f_equal.
  apply map_ext. intros j. unfold generateBlock. cbn [fst].
  by replace (S (n + 2 * j)) with (n + 2 * j + 1)%nat by lia.
Qed.

(** ** Clicks that do nothing, clicks that fault *)

Lemma toggle_in_range_iff (g : Grid) (sel : list Sel.t) (r c : nat) :
  (r < length g)%nat ->
  Forall (fun x => (Sel.r x < length g)%nat) (toggle sel r c) <->
  Forall (fun x => (Sel.r x < length g)%nat) sel.
Proof.
  intros Hr. split; [|by apply toggle_in_range].
  rewrite !Forall_forall. intros H x Hx.
  destruct (decide (x = Sel.mk r c)) as [->|Hne]; [done|].
  apply H. destruct (decide (Sel.mk r c ∈ sel)) as [Hin|Hnin].
  - rewrite toggle_in by done. by apply elem_of_removed.
  - rewrite toggle_notin by done. apply elem_of_app. by left.
Qed.

(** X15. A click is ignored outside the phase [playing], and on a cell
    of an existing row that holds no block ([null], or no such column):
    the state is left as it is. *)
Theorem click_ignored (r c : nat) (s : State) :
  gameState s <> playing \/
  (exists row, grid s !! r = Some row /\ default None (row !! c) = None) ->
  handleBlockClick rnd r c s = Some s.
Proof.
  intros H. unfold handleBlockClick.
  destruct (decide (gameState s = playing)) as [Hp|Hp].
  - destruct H as [?|(row & Hrow & Hcell)]; [done|].
    rewrite bool_decide_eq_true_2 by done. cbn [negb].
    unfold cellAt. rewrite Hrow. simpl. by rewrite Hcell.
  - by rewrite bool_decide_eq_false_2 by done.
Qed.

(** X16. While playing, [handleBlockClick] raises a [TypeError] exactly
    when the clicked row does not exist, or the clicked cell is a block
    and some selected coordinate names a row that does not exist. *)
Theorem click_faults_iff (r c : nat) (s : State) :
  gameState s = playing ->
  (handleBlockClick rnd r c s = None <->
   (length (grid s) <= r)%nat \/
   ((exists b, cellAt (grid s) r c = Some (Some b)) /\
    ~ Forall (fun x => (Sel.r x < length (grid s))%nat) (selected s))).
Proof.
  intros Hp. unfold handleBlockClick.
  rewrite bool_decide_eq_true_2 by done. cbn [negb].
  destruct (cellAt (grid s) r c) as [[b|]|] eqn:Hcell; cbn [mbind option_bind].
  - assert (r < length (grid s))%nat as Hr
      by (apply (cellAt_is_Some (grid s) r c); by eexists).
    destruct (sumSelected (grid s) (toggle (selected s) r c)) as [v|] eqn:Hsum;
      cbn [mbind option_bind].
    + assert (Forall (fun x => (Sel.r x < length (grid s))%nat) (selected s))
        as Hrange.
      { apply (toggle_in_range_iff (grid s) (selected s) r c Hr).
        apply sumSelected_in_range. by eexists. }
      split.
      * unfold generateTarget.
        destruct (v =? target s); [|destruct (v >? target s)]; discriminate.
      * intros [?|[_ ?]]; [lia|done].
    + split; [|done]. intros _. right. split; [by eexists|].
      intros Hrange.
      apply (toggle_in_range_iff (grid s) (selected s) r c Hr) in Hrange.
      apply sumSelected_in_range in Hrange as [v Hv]. congruence.
  - assert (r < length (grid s))%nat as Hr
      by (apply (cellAt_is_Some (grid s) r c); by eexists).
    split; [done|]. intros [?|[[b ?] _]]; [lia|done].
  - split; [|done]. intros _. left.
    destruct (decide (r < length (grid s))%nat) as [Hr|Hr]; [|lia].
    apply (cellAt_is_Some (grid s) r c) in Hr as [? ?]. congruence.
Qed.

(** ** The countdown *)

Lemma run_ticks (k : nat) (s : State) :
  reachable rnd str s -> gameState s = playing -> mode s = time ->
  Z.of_nat k < timeLeft s ->
  run rnd str (replicate k TimerTick) s =
    Some (set_timeLeft (timeLeft s - Z.of_nat k) s).
Proof.
  revert s. induction k as [|k IH]; intros s Hreach Hp Hm Hk.
  - simpl. rewrite Z.sub_0_r. by destruct s.
  - cbn [replicate run].
    assert (step rnd str TimerTick s = Some (set_timeLeft (timeLeft s - 1) s))
      as Hstep.
    { unfold step, enabled. rewrite !bool_decide_eq_true_2 by done.
      cbn [andb handle]. unfold tick.
      destruct (Z.leb_spec (timeLeft s) 1); [lia|].
      cbn [fmap option_fmap option_map]. f_equal.
      destruct (boardInvariant_reachable s Hreach) as (_ & _ & Hle & _).
      unfold highScoreEffect.
      replace (score (set_timeLeft (timeLeft s - 1) s)) with (score s)
        by (by destruct s).
      replace (highScore (set_timeLeft (timeLeft s - 1) s)) with (highScore s)
        by (by destruct s).
      by destruct (Z.gtb_spec (score s) (highScore s)); [lia|]. }
    rewrite Hstep. cbn [mbind option_bind].
    rewrite IH.
    + f_equal. destruct s; simpl. unfold set_timeLeft. simpl. f_equal. lia.
    + by eapply reachable_step.
    + by destruct s.
    + by destruct s.
    + destruct s; simpl in *. lia.
Qed.

(** X17. The countdown: in time mode while playing, [k] ticks in a row,
    [k] less than the seconds left, take [k] seconds off [timeLeft] and
    change nothing else; no row is added before [timeLeft] has reached
    1. *)
Theorem ticks_count_down (k : nat) (s : State) :
  reachable rnd str s -> gameState s = playing -> mode s = time ->
  Z.of_nat k < timeLeft s ->
  run rnd str (replicate k TimerTick) s =
    Some (set_timeLeft (timeLeft s - Z.of_nat k) s).
Proof. apply run_ticks. Qed.

Lemma run_app (es1 es2 : list Event) (s : State) :
  run rnd str (es1 ++ es2) s = run rnd str es1 s ≫= run rnd str es2.
Proof.
  revert s. induction es1 as [|e es1 IH]; intros s; [done|].
  simpl. destruct (step rnd str e s); simpl; [apply IH|done].
Qed.

Lemma highScoreEffect_id (s : State) :
  score s <= highScore s -> highScoreEffect s = s.
Proof.
  intros Hle. unfold highScoreEffect.
  by destruct (Z.gtb_spec (score s) (highScore s)); [lia|].
Qed.

(** X19. One period of the interval: in time mode while playing, as many
    ticks in a row as there are seconds left amount to one call of
    [addRow]: the rows advance once (or the round ends), the countdown
    restarts at [TIME_MODE_SECONDS], and nothing else changes. *)
Theorem tick_period (s : State) :
  reachable rnd str s -> gameState s = playing -> mode s = time ->
  run rnd str (replicate (Z.to_nat (timeLeft s)) TimerTick) s =
    addRow rnd str time s.
Proof.
  intros Hreach Hp Hm.
  destruct (invariant_reachable rnd str s Hreach) as (_ & _ & Htl & _ & Hst).
  destruct (boardInvariant_reachable s Hreach) as (_ & _ & Hle & _).
  replace (Z.to_nat (timeLeft s)) with (Z.to_nat (timeLeft s - 1) + 1)%nat by lia.
  rewrite replicate_add, run_app, run_ticks by (done || lia).
  cbn [mbind option_bind replicate run].
  replace (timeLeft s - Z.of_nat (Z.to_nat (timeLeft s - 1))) with 1 by lia.
  unfold step, enabled.
  replace (gameState (set_timeLeft 1 s)) with (gameState s) by (by destruct s).
  replace (mode (set_timeLeft 1 s)) with (mode s) by (by destruct s).
  rewrite !bool_decide_eq_true_2 by done. cbn [andb handle]. unfold tick.
  replace (timeLeft (set_timeLeft 1 s)) with 1 by (by destruct s).
  cbn [Z.leb Z.compare].
  assert (exists row0 rest, grid s = row0 :: rest) as (row0 & rest & Hg).
  { destruct Hst as [Hst|(? & _)]; [|congruence].
    unfold started in Hst. destruct (grid s); [done|by eauto]. }
  destruct (addRow_cons rnd str time s row0 rest Hg)
    as (s1 & Hadd & _ & _ & _ & Hsc & Hhs & _ & _ & Htl1 & _).
  assert (addRow rnd str time (set_timeLeft 1 s) = addRow rnd str time s) as Heq.
  { unfold addRow.
    replace (grid (set_timeLeft 1 s)) with (grid s) by (by destruct s).
    replace (rng (set_timeLeft 1 s)) with (rng s) by (by destruct s).
    destruct (generateRow rnd str (rng s)) as [row n'].
    destruct (checkGameOver (grid s)) as [[|]|]; by destruct s. }
  rewrite Heq, Hadd. change (1 <=? 1) with true.
  cbn [mbind option_bind fmap option_fmap option_map].
  f_equal. rewrite highScoreEffect_id.
  - destruct (decide (time = time)) as [_|?]; [|done].
    destruct s1; simpl in *. by rewrite Htl1.
  - replace (score (set_timeLeft TIME_MODE_SECONDS s1)) with (score s1)
      by (by destruct s1).
    replace (highScore (set_timeLeft TIME_MODE_SECONDS s1)) with (highScore s1)
      by (by destruct s1). lia.
Qed.

(** ** The other outcomes of a click *)

(** X20. Pending: a click on a block while playing whose toggled
    selection sums to less than the target stores the toggled selection
    and changes neither board, score, target nor the timers. *)
Theorem click_pending (r c : nat) (s : State) (b : BlockData) (v : Z) :
  gameState s = playing ->
  cellAt (grid s) r c = Some (Some b) ->
  sumSelected (grid s) (toggle (selected s) r c) = Some v ->
  v < target s ->
  exists s', step rnd str (BlockClick r c) s = Some s' /\
    selected s' = toggle (selected s) r c /\
    grid s' = grid s /\ score s' = score s /\ target s' = target s /\
    timeLeft s' = timeLeft s /\ timeouts s' = timeouts s /\
    gameState s' = playing /\ rng s' = rng s.
Proof.
  intros Hp Hb Hsum Hv. rewrite (step_BlockClick rnd str r c s b) by done.
  rewrite (handleBlockClick_pending rnd r c s b v) by done.
  eexists. split; [reflexivity|].
  destruct (highScoreEffect_fields (set_selected (toggle (selected s) r c) s))
    as (-> & _ & -> & -> & -> & -> & -> & -> & -> & _).
  by destruct s.
Qed.

(** X21. How a match paces the round: in classic mode it hands one
    [addRow] to [setTimeout] and leaves the countdown alone; in time mode
    it schedules nothing and sets the countdown back to
    [TIME_MODE_SECONDS]. The phase stays [playing] either way. *)
Theorem match_pacing (r c : nat) (s : State) (b : BlockData) :
  gameState s = playing ->
  cellAt (grid s) r c = Some (Some b) ->
  sumSelected (grid s) (toggle (selected s) r c) = Some (target s) ->
  exists s', step rnd str (BlockClick r c) s = Some s' /\
    gameState s' = playing /\ mode s' = mode s /\
    match mode s with
    | classic => timeouts s' = S (timeouts s) /\ timeLeft s' = timeLeft s
    | time => timeouts s' = timeouts s /\ timeLeft s' = TIME_MODE_SECONDS
    end.
Proof.
  intros Hp Hb Hsum. rewrite (step_BlockClick rnd str r c s b) by done.
  destruct (handleBlockClick_match rnd r c s b Hp Hb Hsum)
    as (s1 & -> & Hgs & Hm & _ & _ & _ & _ & _ & _ & Htl & Hto).
  eexists. split; [reflexivity|].
  destruct (highScoreEffect_fields s1) as (-> & -> & _ & _ & _ & _ & -> & _ & -> & _).
  rewrite Hgs, Hm, Htl, Hto. split; [done|]. split; [done|].
  destruct (mode s); by repeat case_decide.
Qed.

(** X22. A classic match and its deferred [addRow], with nothing in
    between: if row 0 is empty after the selected cells are removed, the
    board becomes the old one with the selected cells emptied, without its
    row 0 and with a new row at the bottom; the target is drawn before the
    row (draw [rng], then draws [rng + 1 .. rng + 12]); no callback is
    left over. *)
Theorem classic_match_then_advance
    (r c : nat) (s : State) (b : BlockData) (row0 : Row) (rest : Grid) :
  gameState s = playing -> mode s = classic ->
  cellAt (grid s) r c = Some (Some b) ->
  sumSelected (grid s) (toggle (selected s) r c) = Some (target s) ->
  removeCells (grid s) (toggle (selected s) r c) = row0 :: rest ->
  emptyRow row0 ->
  exists s', run rnd str [BlockClick r c; TimeoutFires] s = Some s' /\
    grid s' = rest ++ [fst (generateRow rnd str (S (rng s)))] /\
    target s' = fst (generateTarget rnd (rng s)) /\
    rng s' = (rng s + 13)%nat /\
    gameState s' = playing /\ selected s' = [] /\
    timeouts s' = timeouts s /\
    score s' = score s + 10 * Z.of_nat (length (toggle (selected s) r c)).
Proof.
  intros Hp Hm Hb Hsum Hg Hrow0. cbn [run].
  rewrite (step_BlockClick rnd str r c s b) by done.
  destruct (handleBlockClick_match rnd r c s b Hp Hb Hsum)
    as (s1 & -> & Hgs1 & Hm1 & Hg1 & Ht1 & Hrng1 & Hsel1 & Hsc1 & _ & _ & Hto1).
  cbn [fmap option_fmap option_map mbind option_bind].
  set (s2 := highScoreEffect s1).
  destruct (highScoreEffect_fields s1)
    as (Hgs2 & Hm2 & Hg2 & Ht2 & Hsel2 & Hsc2 & _ & Hrng2 & Hto2 & _).
  fold s2 in Hgs2, Hm2, Hg2, Ht2, Hsel2, Hsc2, Hrng2, Hto2.
  rewrite Hm in Hto1. destruct (decide (classic = classic)) as [_|?]; [|done].
  unfold step, enabled. rewrite Hto2, Hto1. cbn [Nat.eqb negb handle].
  unfold fireTimeout.
  destruct (addRow_cons rnd str classic (set_timeouts (pred (timeouts s2)) s2)
              row0 rest)
    as (s3 & -> & _ & Ht3 & Hsel3 & Hsc3 & _ & Hto3 & Hrng3 & _ & Hcases).
  { replace (grid (set_timeouts (pred (timeouts s2)) s2)) with (grid s2)
      by (by destruct s2). by rewrite Hg2, Hg1. }
  cbn [fmap option_fmap option_map]. eexists. split; [reflexivity|].
  destruct (highScoreEffect_fields s3)
    as (-> & _ & -> & -> & -> & -> & _ & -> & -> & _).
  rewrite Ht3, Hsel3, Hsc3, Hto3, Hrng3.
  replace (target (set_timeouts (pred (timeouts s2)) s2)) with (target s2)
    by (by destruct s2).
  replace (selected (set_timeouts (pred (timeouts s2)) s2)) with (selected s2)
    by (by destruct s2).
  replace (score (set_timeouts (pred (timeouts s2)) s2)) with (score s2)
    by (by destruct s2).
  replace (timeouts (set_timeouts (pred (timeouts s2)) s2))
    with (pred (timeouts s2)) by (by destruct s2).
  replace (rng (set_timeouts (pred (timeouts s2)) s2)) with (rng s2)
    by (by destruct s2).
  replace (gameState (set_timeouts (pred (timeouts s2)) s2)) with (gameState s2)
    in Hcases by (by destruct s2).
  rewrite Ht2, Ht1, Hsel2, Hsel1, Hsc2, Hsc1, Hto2, Hto1, Hrng2, Hrng1.
  rewrite generateRow_rng.
  destruct Hcases as [([b' Hb'] & _)|(_ & -> & ->)].
  - eapply Forall_forall in Hrow0; [|exact Hb']. done.
  - replace (rng (set_timeouts (pred (timeouts s2)) s2)) with (rng s2)
      by (by destruct s2).
    rewrite Hrng2, Hrng1, Hgs2, Hgs1.
    split_and!; try done; unfold GRID_COLS; lia.
Qed.

(** ** The draws of Math.random *)

(** X23. What each event spends of [Math.random]: [startGame] 49 draws,
    a click that matches 1, a call of [addRow] 12, also when it finds a
    block in row 0 and throws the row it generated away; nothing
    otherwise. *)
Theorem rng_consumption (e : Event) (s s' : State) :
  reachable rnd str s -> step rnd str e s = Some s' ->
  rng s' =
    (rng s +
     match e with
     | StartGame _ => 49
     | BlockClick r c =>
         if decide (sumSelected (grid s) (toggle (selected s) r c)
                    = Some (target s))
         then 1 else 0
     | ClearSelection | MainMenu => 0
     | TimerTick => if (timeLeft s <=? 1)%Z then 12 else 0
     | TimeoutFires => 12
     end)%nat.
Proof.
  intros Hreach Hstep.
  pose proof (invariant_reachable rnd str s Hreach) as Hinv.
  destruct (step_inv e s s' Hinv Hstep) as (s1 & Hh & -> & He).
  destruct (highScoreEffect_fields s1) as (_ & _ & _ & _ & _ & _ & _ & -> & _).
  destruct e as [m|r c| | | |].
  - subst s1. by destruct (startGame_target m s) as [_ ->].
  - destruct He as (b & v & Hp & Hb & Hsum & [[Hv ->]|[[Hv ->]|[-> Hm]]]).
    + rewrite decide_False by (rewrite Hsum; intros [= ?]; lia).
      destruct s; simpl. lia.
    + rewrite decide_False by (rewrite Hsum; intros [= ?]; lia).
      destruct s; simpl. lia.
    + rewrite decide_True by done.
      destruct (handleBlockClick_match rnd r c s b Hp Hb Hsum)
        as (s2 & Hm' & _ & _ & _ & _ & Hrng & _).
      rewrite Hm in Hm'. injection Hm' as <-. lia.
  - destruct He as [_ ->]. destruct s; simpl. lia.
  - destruct He as [_ ->]. destruct s; simpl. lia.
  - destruct He as (_ & _ & [[Hgt ->]|(Hle & s2 & row0 & rest & Hg & Hadd & ->)]).
    + destruct (Z.leb_spec (timeLeft s) 1); [lia|]. destruct s; simpl. lia.
    + destruct (Z.leb_spec (timeLeft s) 1); [|lia].
      destruct (addRow_cons rnd str time s row0 rest Hg)
        as (s3 & Hadd' & _ & _ & _ & _ & _ & _ & Hrng & _).
      rewrite Hadd in Hadd'. injection Hadd' as <-.
      replace (rng (set_timeLeft TIME_MODE_SECONDS s2)) with (rng s2)
        by (by destruct s2).
      rewrite Hrng, generateRow_rng. unfold GRID_COLS. lia.
  - destruct He as (_ & row0 & rest & Hg & Hadd).
    destruct (addRow_cons rnd str classic (set_timeouts (pred (timeouts s)) s)
                row0 rest) as (s3 & Hadd' & _ & _ & _ & _ & _ & _ & Hrng & _);
      [by destruct s|].
    rewrite Hadd in Hadd'. injection Hadd' as <-.
    rewrite Hrng, generateRow_rng.
    replace (rng (set_timeouts (pred (timeouts s)) s)) with (rng s)
      by (by destruct s).
    unfold GRID_COLS. lia.
Qed.

(** X18. With [Math.random] in its range, neither [generateTarget] nor
    [generateRow] ever takes [Math.floor] of an infinity or a NaN: the
    product of a draw with 21 (for the target) or with 9 (for a value) is
    a finite number. *)
Theorem random_products_finite (n : nat) :
  (forall i, Number.unit_interval (rnd i) = true) ->
  Number.is_finite
    (Number.mul (rnd n) (Number.of_Z (TARGET_MAX - TARGET_MIN + 1))) = true /\
  Number.is_finite (Number.mul (rnd n) (Number.of_Z 9)) = true.
Proof.
  intros Hrnd. split.
  - apply NumberFacts.mul_unit_finite; [done|by left].
  - apply NumberFacts.mul_unit_finite; [done|by right].
Qed.

End MoreFacts.

(** * Sample runs of the further properties *)

Lemma alwaysHalf_unit (i : nat) : Number.unit_interval (alwaysHalf i) = true.
Proof. vm_compute. reflexivity. Qed.

Lemma board_shape_witness :
  reachable alwaysHalf noId (after alwaysHalf fourMatched) /\
  wellShaped (grid (after alwaysHalf fourMatched)).
Proof.
  assert (reachable alwaysHalf noId (after alwaysHalf fourMatched)) as Hreach
    by (apply after_reachable; vm_compute; by eexists).
  split; [exact Hreach|].
  destruct (board_shape alwaysHalf noId _ Hreach) as [Hws|(Hnil & _)];
    [exact Hws|].
  vm_compute in Hnil. discriminate.
Defined.

Lemma enabled_never_faults_witness :
  enabled (BlockClick 9 3) (after alwaysHalf threeSelected) = true /\
  is_Some (step alwaysHalf noId (BlockClick 9 3) (after alwaysHalf threeSelected)).
Proof.
  split; [vm_compute; reflexivity|].
  apply enabled_never_faults.
  - apply after_reachable. vm_compute. by eexists.
  - vm_compute. reflexivity.
Defined.

Lemma gameover_frozen_witness :
  gameState (after alwaysHalf lostRound) = gameover /\
  exists s', step alwaysHalf noId MainMenu (after alwaysHalf lostRound) = Some s' /\
    grid s' = grid (after alwaysHalf lostRound).
Proof.
  split; [vm_compute; reflexivity|].
  eexists. split; [vm_compute; reflexivity|].
  destruct (gameover_frozen alwaysHalf noId MainMenu (after alwaysHalf lostRound)
              (default initialState
                 (step alwaysHalf noId MainMenu (after alwaysHalf lostRound))))
    as [(Hstart & _)|(Hgrid & _)].
  - apply after_reachable. vm_compute. by eexists.
  - vm_compute. reflexivity.
  - vm_compute. reflexivity.
  - discriminate.
  - vm_compute. reflexivity.
Defined.

Lemma phase_transitions_witness :
  exists s',
    step alwaysHalf noId TimeoutFires
         (after alwaysHalf (risenToTop ++ matchBottom)) = Some s' /\
    (gameState s' = playing \/ gameState s' = gameover).
Proof.
  eexists. split; [vm_compute; reflexivity|].
  destruct (phase_transitions alwaysHalf noId TimeoutFires
              (after alwaysHalf (risenToTop ++ matchBottom))
              (after alwaysHalf lostRound)) as [H|H].
  - apply after_reachable. vm_compute. by eexists.
  - vm_compute. reflexivity.
  - left. vm_compute. vm_compute in H. exact H.
  - right. vm_compute. reflexivity.
Defined.

Lemma blocks_and_target_in_range_witness :
  reachable alwaysHalf noId (after alwaysHalf fourMatched) /\
  TARGET_MIN <= target (after alwaysHalf fourMatched) <= TARGET_MAX.
Proof.
  assert (reachable alwaysHalf noId (after alwaysHalf fourMatched)) as Hreach
    by (apply after_reachable; vm_compute; by eexists).
  split; [exact Hreach|].
  apply (blocks_and_target_in_range alwaysHalf noId alwaysHalf_unit _ Hreach).
  vm_compute. discriminate.
Defined.

Lemma score_steps_witness :
  (10 | score (after alwaysHalf fourMatched)) /\
  score (after alwaysHalf fourMatched) = 40.
Proof.
  split; [|vm_compute; reflexivity].
  apply (score_steps alwaysHalf noId alwaysHalf_unit ClearSelection
           (after alwaysHalf fourMatched)
           (after alwaysHalf (fourMatched ++ [ClearSelection]))).
  - apply after_reachable. vm_compute. by eexists.
  - vm_compute. reflexivity.
Defined.

Lemma fresh_round_survives_witness :
  timerEvents (tail risenToTop) = 6%nat /\
  gameState (after alwaysHalf risenToTop) <> gameover.
Proof.
  split; [vm_compute; reflexivity|].
  apply (fresh_round_survives alwaysHalf noId classic (tail risenToTop)
           initialState).
  - apply reachable_init.
  - vm_compute. lia.
  - vm_compute. reflexivity.
Defined.

Lemma sumSelected_order_witness :
  sumSelected (grid (after alwaysHalf [StartGame classic]))
              [Sel.mk 9 0; Sel.mk 8 1] =
  sumSelected (grid (after alwaysHalf [StartGame classic]))
              [Sel.mk 8 1; Sel.mk 9 0].
Proof.
  apply sumSelected_order. apply Permutation_swap.
Defined.

Lemma sumSelected_toggle_witness :
  sumSelected (grid (after alwaysHalf [StartGame classic]))
              (toggle [Sel.mk 9 0] 9 1) = Some 10.
Proof.
  rewrite (sumSelected_toggle (grid (after alwaysHalf [StartGame classic]))
             [Sel.mk 9 0] 9 1 5).
  - vm_compute. reflexivity.
  - apply NoDup_singleton.
  - vm_compute. lia.
  - vm_compute. reflexivity.
Defined.

Lemma click_ignored_witness :
  handleBlockClick alwaysHalf 0 0 (after alwaysHalf [StartGame classic])
    = Some (after alwaysHalf [StartGame classic]) /\
  handleBlockClick alwaysHalf 9 0 (after alwaysHalf lostRound)
    = Some (after alwaysHalf lostRound).
Proof.
  split.
  - apply click_ignored. right. eexists. split; vm_compute; reflexivity.
  - apply click_ignored. left. vm_compute. discriminate.
Defined.

Lemma click_faults_iff_witness :
  handleBlockClick alwaysHalf 10 0 (after alwaysHalf [StartGame classic]) = None.
Proof.
  apply click_faults_iff.
  - vm_compute. reflexivity.
  - left. vm_compute. lia.
Defined.

Lemma ticks_count_down_witness :
  run alwaysHalf noId (replicate 9 TimerTick) (after alwaysHalf [StartGame time])
    = Some (set_timeLeft 1 (after alwaysHalf [StartGame time])).
Proof.
  rewrite (ticks_count_down alwaysHalf noId 9 (after alwaysHalf [StartGame time])).
  - vm_compute. reflexivity.
  - apply after_reachable. vm_compute. by eexists.
  - vm_compute. reflexivity.
  - vm_compute. reflexivity.
  - vm_compute. reflexivity.
Defined.

Lemma random_products_finite_witness :
  (forall i, Number.unit_interval (alwaysBelowOne i) = true) /\
  Number.is_finite (Number.mul (alwaysBelowOne 0) (Number.of_Z 9)) = true.
Proof.
  assert (forall i, Number.unit_interval (alwaysBelowOne i) = true) as Hrnd
    by (intros i; vm_compute; reflexivity).
  split; [exact Hrnd|].
  exact (proj2 (random_products_finite alwaysBelowOne 0 Hrnd)).
Defined.

Lemma tick_period_witness :
  run alwaysHalf noId (replicate 10 TimerTick) (after alwaysHalf [StartGame time])
    = addRow alwaysHalf noId time (after alwaysHalf [StartGame time]).
Proof.
  rewrite <- (tick_period alwaysHalf noId (after alwaysHalf [StartGame time])).
  - vm_compute. reflexivity.
  - apply after_reachable. vm_compute. by eexists.
  - vm_compute. reflexivity.
  - vm_compute. reflexivity.
Defined.

Lemma click_pending_witness :
  exists s',
    step alwaysHalf noId (BlockClick 9 0) (after alwaysHalf [StartGame classic])
      = Some s' /\
    selected s' = [Sel.mk 9 0].
Proof.
  destruct (click_pending alwaysHalf noId 9 0
              (after alwaysHalf [StartGame classic]) five 5)
    as (s' & Hstep & Hsel & _).
  - vm_compute. reflexivity.
  - vm_compute. reflexivity.
  - vm_compute. reflexivity.
  - vm_compute. reflexivity.
  - exists s'. split; [exact Hstep|]. rewrite Hsel. vm_compute. reflexivity.
Defined.

Lemma match_pacing_witness :
  exists s',
    step alwaysHalf noId (BlockClick 9 3) (after alwaysHalf threeSelected) = Some s' /\
    timeouts s' = 1%nat.
Proof.
  destruct (match_pacing alwaysHalf noId 9 3 (after alwaysHalf threeSelected) five)
    as (s' & Hstep & _ & _ & Hpace).
  - vm_compute. reflexivity.
  - vm_compute. reflexivity.
  - vm_compute. reflexivity.
  - exists s'. split; [exact Hstep|].
    change (mode (after alwaysHalf threeSelected)) with classic in Hpace.
    destruct Hpace as [-> _]. vm_compute. reflexivity.
Defined.

Lemma classic_match_then_advance_witness :
  exists s',
    run alwaysHalf noId [BlockClick 9 3; TimeoutFires]
        (after alwaysHalf threeSelected) = Some s' /\
    score s' = 40 /\ rng s' = 62%nat.
Proof.
  destruct (classic_match_then_advance alwaysHalf noId 9 3
              (after alwaysHalf threeSelected) five
              (replicate GRID_COLS None)
              (drop 1 (removeCells (grid (after alwaysHalf threeSelected))
                                   (toggle (selected (after alwaysHalf threeSelected))
                                           9 3))))
    as (s' & Hrun & _ & _ & Hrng & _ & _ & _ & Hsc).
  - vm_compute. reflexivity.
  - vm_compute. reflexivity.
  - vm_compute. reflexivity.
  - vm_compute. reflexivity.
  - vm_compute. reflexivity.
  - apply Forall_replicate. reflexivity.
  - exists s'. split; [exact Hrun|]. rewrite Hsc, Hrng.
    split; vm_compute; reflexivity.
Defined.

Lemma rng_consumption_witness :
  rng (after alwaysHalf lostRound) = 140%nat /\
  rng (after alwaysHalf (lostRound ++ [MainMenu])) = 140%nat.
Proof.
  split; [vm_compute; reflexivity|].
  rewrite (rng_consumption alwaysHalf noId MainMenu
             (after alwaysHalf lostRound)
             (after alwaysHalf (lostRound ++ [MainMenu]))).
  - vm_compute. reflexivity.
  - apply after_reachable. vm_compute. by eexists.
  - vm_compute. reflexivity.
Defined.
